(** * Scheduling of i3blocks block updates (src/sched.c)

    A shallow embedding of the scheduler core of [sched.c]: the sleep
    planner [longest_sleep], the update decision [need_update], the
    per-cycle pass [update_status_line], click parsing and correlation
    ([parse_click], [handle_click]) and the main loop [sched_start].

    Machine integers are modelled as [Z] with their wrap-around written
    out: [int] is 32 bits, [unsigned long] and [long] are 64 bits (LP64).
    C strings held in fixed arrays ([name], [instance], [command]) are
    modelled as [string] (their content up to the terminating NUL); the
    fixed-capacity click fields, which the code fills with [memcpy] and
    [memset], are modelled as lists of bytes (values in [0, 256)). *)

From Stdlib Require Import ZArith Lia.
From Stdlib Require Import Sorting.Sorted.
From stdpp Require Import base list strings.

Open Scope Z_scope.

(** ** Machine integers *)

Definition INT_MAX : Z := 2 ^ 31 - 1.

(** Conversion of a value to [int] (two's complement, 32 bits). *)
Definition to_int (x : Z) : Z := (x + 2 ^ 31) mod 2 ^ 32 - 2 ^ 31.

(** Arithmetic on [unsigned long]. *)
Definition ulong (x : Z) : Z := x mod 2 ^ 64.

(** Conversion of an [unsigned long] to [long] (two's complement). *)
Definition to_long (x : Z) : Z := (x + 2 ^ 63) mod 2 ^ 64 - 2 ^ 63.

(** ** Data model (block.h is not part of the sources; the fields used by
    sched.c are kept) *)

(** [struct click]: three fixed-capacity byte arrays. *)
Record click := mk_click {
  button : list Z;
  click_x : list Z;
  click_y : list Z;
}.

(** [struct block]: used both for the configuration templates
    ([status->blocks]) and for the runtime copies
    ([status->updated_blocks]). [full_text] stands for the output fields
    written by the external [block_update]. *)
Record block := mk_block {
  name : string;
  instance : string;
  command : string;
  interval : Z;
  signal : Z;
  last_update : Z;
  full_text : string;
  bclick : click;
}.

(** [struct status_line]: [num] is the length of both arrays. *)
Record status_line := mk_status_line {
  blocks : list block;
  updated_blocks : list block;
}.

Definition num (s : status_line) : nat := length (blocks s).

(** [memset(&c, 0, sizeof(struct click))] *)
Definition zero_click (c : click) : click :=
  mk_click (map (fun _ => 0) (button c)) (map (fun _ => 0) (click_x c))
           (map (fun _ => 0) (click_y c)).

Definition click_empty (c : click) : Prop :=
  Forall (fun b => b = 0) (button c) /\ Forall (fun b => b = 0) (click_x c) /\
  Forall (fun b => b = 0) (click_y c).

Definition set_click (b : block) (c : click) : block :=
  mk_block (name b) (instance b) (command b) (interval b) (signal b)
           (last_update b) (full_text b) c.

(** ** longest_sleep *)

(** The nested [gcd] of [longest_sleep]:
    [while (b != 0) a %= b, a ^= b, b ^= a, a ^= b; return a;]
    The loop runs at most [|b| + 1] times ([|b|] strictly decreases), which
    is the fuel given by [gcd]. *)
Fixpoint gcd_loop (fuel : nat) (a b : Z) : Z :=
  match fuel with
  | O => a
  | S f =>
      if Z.eqb b 0 then a
      else
        let a := Z.rem a b in
        let a := Z.lxor a b in
        let b := Z.lxor b a in
        let a := Z.lxor a b in
        gcd_loop f a b
  end.

Definition gcd (a b : Z) : Z := gcd_loop (S (Z.to_nat (Z.abs b))) a b.

(** [time] starts at the first block's interval and is folded with [gcd]
    over the blocks [1 .. num - 1]; the [num >= 2] test only guards an
    empty loop. *)
Definition longest_sleep (s : status_line) : Z :=
  let time :=
    match blocks s with
    | [] => 0
    | b0 :: rest =>
        fold_left (fun t b => gcd t (to_int (interval b))) rest
                  (to_int (interval b0))
    end in
  if Z.gtb time 0 then time else 5.

(** The planner's contract: the GCD of the nonzero intervals. *)
Definition gcd_nonzero (ivs : list Z) : Z :=
  fold_left Z.gcd (List.filter (fun x => negb (Z.eqb x 0)) ivs) 0.

(** ** need_update

    [caughtsig] is the global set by the signal handler and [now] the value
    of [time(NULL)] read for this block. *)

(** [*block->click.button != '\0'] *)
Definition button_set (c : click) : bool :=
  match button c with
  | b :: _ => negb (Z.eqb b 0)
  | [] => false
  end.

Definition need_update (caughtsig now : Z) (b : block) : bool :=
  let first_time := Z.eqb (last_update b) 0 in
  let outdated :=
    if negb (Z.eqb (interval b) 0) then
      let next_update := ulong (last_update b + interval b) in
      Z.leb (to_long (ulong (next_update - now))) 0
    else false in
  let '(signaled, clicked) :=
    if negb (Z.eqb caughtsig 0) then
      (Z.eqb caughtsig (signal b), button_set (bclick b))
    else (false, false) in
  first_time || outdated || signaled || clicked.

(** ** update_status_line

    [clock i] is the time read when deciding block [i]; [block_update] is
    the external collaborator, an arbitrary function of the block it is
    given. The loop also returns the calls made to [block_update], as
    (index, argument) pairs, in order.

    [caughtsig] is a [volatile] global that [handler] may overwrite at any
    moment, and [need_update] reads it afresh for every block. The signals
    caught during the pass are given by [sigs]: [sigs i = Some s] when the
    last handler that ran after the read for block [i - 1] (for [i = 0]:
    after the value the pass starts with was stored) and before the read
    for block [i] stored [s]; [sigs n], for [n] the number of blocks, is
    the last handler run after the last read and before the reset.
    [need_update] reads [caughtsig] twice ([if (caughtsig)], then
    [caughtsig == block->signal]); the handler only stores signal numbers,
    which are positive, so a change between the two reads decides as a
    single read of the second value would, or, when the first read saw 0,
    as a single read of 0 with the new value delivered before the next
    block; both are cases of [sigs]. *)

(** [caughtsig] after the signals of [d]: the handler overwrites it. *)
Definition deliver (cs : Z) (d : option Z) : Z :=
  match d with
  | Some s => s
  | None => cs
  end.
(** The body of the loop for one block: [Some (arg, b')] when
    [block_update] is called with [arg] and the runtime block becomes [b'];
    [None] when the runtime block is left as it is. *)
Definition update_block (caughtsig now : Z) (block_update : block -> block)
    (config_block updated_block : block) : option (block * block) :=
  (* Skip static block *)
  if String.eqb (command config_block) "" then None
  else if need_update caughtsig now updated_block then
    (* save click info and restore config values *)
    let arg := set_click config_block (bclick updated_block) in
    let r := block_update arg in
    (* clear click info *)
    Some (arg, set_click r (zero_click (bclick r)))
  else None.

(** One iteration of the [for] loop, on the runtime array. *)
Definition loop_body (caughtsig now : Z) (block_update : block -> block)
    (i : nat) (config_block : block) (upd : list block)
    : list block * option block :=
  match upd !! i with
  | Some updated_block =>
      match update_block caughtsig now block_update config_block updated_block with
      | Some (arg, b') => (<[i := b']> upd, Some arg)
      | None => (upd, None)
      end
  | None => (upd, None)
  end.

(** The loop from block [i] on, with [caughtsig] holding [caughtsig] when
    it starts; it also returns the value [caughtsig] holds when the loop
    ends. *)
Fixpoint update_loop (caughtsig : Z) (clock : nat -> Z) (sigs : nat -> option Z)
    (block_update : block -> block) (i : nat) (cfgs upd : list block)
    : list block * list (nat * block) * Z :=
  let caughtsig1 := deliver caughtsig (sigs i) in
  match cfgs with
  | [] => (upd, [], caughtsig1)
  | config_block :: rest =>
      let '(upd1, call) :=
        loop_body caughtsig1 (clock i) block_update i config_block upd in
      let '(upd2, calls, caughtsig2) :=
        update_loop caughtsig1 clock sigs block_update (S i) rest upd1 in
      (upd2, match call with Some a => (i, a) :: calls | None => calls end,
       caughtsig2)
  end.

(** The scheduler's state: the status line and the global [caughtsig]. *)
Record sched_state := mk_sched_state {
  status : status_line;
  caughtsig : Z;
}.

Definition update_status_line (clock : nat -> Z) (sigs : nat -> option Z)
    (block_update : block -> block)
    (st : sched_state) : sched_state * list (nat * block) :=
  let s := status st in
  let '(upd', calls, cs) :=
    update_loop (caughtsig st) clock sigs block_update 0 (blocks s) (updated_blocks s) in
  (mk_sched_state (mk_status_line (blocks s) upd')
     (if Z.gtb cs 0 then 0 else cs), calls).

(** ** parse_click and handle_click *)

(** [*(p) = '\0'] at offset [i] of a buffer; offsets outside the buffer
    (undefined behaviour in C) leave the model's buffer unchanged. *)
Definition write_byte (buf : list Z) (i v : Z) : list Z :=
  if Z.leb 0 i then <[Z.to_nat i := v]> buf else buf.

Definition read_byte (buf : list Z) (i : Z) : Z :=
  if Z.leb 0 i then default 0 (buf !! Z.to_nat i) else 0.

Fixpoint take_until_nul (l : list Z) : list Z :=
  match l with
  | [] => []
  | b :: l' => if Z.eqb b 0 then [] else b :: take_until_nul l'
  end.

Definition string_of_bytes (l : list Z) : string :=
  String.string_of_list_ascii (map (fun z => Ascii.ascii_of_nat (Z.to_nat z)) l).

(** The C string starting at offset [i]. *)
Definition c_string_at (buf : list Z) (i : Z) : string :=
  string_of_bytes (take_until_nul (drop (Z.to_nat i) buf)).

(** [memcpy(dst, src + st, k)] into a fixed-capacity array: byte [j] of the
    destination is overwritten when [j < k]. *)
Definition memcpy_at (dst src : list Z) (st k : Z) : list Z :=
  imap (fun j d => if Z.ltb (Z.of_nat j) k then read_byte src (st + Z.of_nat j) else d) dst.

(** [MIN(len, sizeof(dst) - 1)]: [len] is an [int] compared with a [size_t],
    so it is converted to [size_t] first. *)
Definition copy_len (len : Z) (dst : list Z) : Z :=
  let cap1 := ulong (Z.of_nat (length dst) - 1) in
  let l := ulong len in
  if Z.ltb l cap1 then l else cap1.

Section ClickIO.

(** [json_parse(json, field, &start, &len)], the external field extractor. *)
Variable json_parse : list Z -> string -> Z * Z.

(** The capacities of the three arrays of [struct click]. *)
Variables cap_button cap_x cap_y : nat.

(** [struct click click = { "" };] *)
Definition empty_click : click :=
  mk_click (replicate cap_button 0) (replicate cap_x 0) (replicate cap_y 0).

(** Returns the final buffer, [name], [instance] and the filled click. *)
Definition parse_click (json : list Z) (c : click)
    : list Z * string * string * click :=
  let '(yst, ylen) := json_parse json "y" in
  let '(xst, xlen) := json_parse json "x" in
  let '(bst, blen) := json_parse json "button" in
  let '(ist, ilen) := json_parse json "instance" in
  let '(nst, nlen) := json_parse json "name" in
  let json1 := write_byte json (nst + nlen) 0 in
  let json2 := write_byte json1 (ist + ilen) 0 in
  (* [name] and [instance] point into the buffer and are read after both
     writes *)
  let nm := c_string_at json2 nst in
  let inst := c_string_at json2 ist in
  let c' := mk_click
    (memcpy_at (button c) json2 bst (copy_len blen (button c)))
    (memcpy_at (click_x c) json2 xst (copy_len xlen (click_x c)))
    (memcpy_at (click_y c) json2 yst (copy_len ylen (click_y c))) in
  (json2, nm, inst, c').

(** [fread(json, 1, sizeof(json) - 1, stdin)] into a zeroed 1024-byte
    buffer: [input] is what stdin delivers. *)
Definition read_json (input : list Z) : list Z :=
  let r := take 1023 input in
  r ++ replicate (1024 - length r) 0.

End ClickIO.

(** The block search of [handle_click], once the click is parsed. *)
Fixpoint find_and_click (nm inst : string) (c : click) (upd : list block)
    : list block :=
  match upd with
  | [] => []
  | b :: rest =>
      if String.eqb (name b) nm && String.eqb (instance b) inst
      then set_click b c :: rest
      else b :: find_and_click nm inst c rest
  end.

Definition click_block (nm inst : string) (c : click) (s : status_line)
    : status_line :=
  if negb (String.eqb nm "") || negb (String.eqb inst "") then
    mk_status_line (blocks s) (find_and_click nm inst c (updated_blocks s))
  else s.

Definition handle_click (json_parse : list Z -> string -> Z * Z)
    (cap_button cap_x cap_y : nat) (input : list Z) (s : status_line)
    : status_line :=
  let '(_, nm, inst, c) :=
    parse_click json_parse (read_json input)
      (empty_click cap_button cap_x cap_y) in
  click_block nm inst c s.

(** ** sched_start *)

Definition SIGIO : Z := 29.

(** How a [sleep(sleeptime)] ends. [Timeout]: it ran to its end, so no
    handler ran during it; a handler that ran after the reset of the pass
    and before [sleep] does not interrupt it, and leaves its number in
    [caughtsig] for the next pass (nothing reads [caughtsig] in between),
    which the next iteration's [env_sigs 0] expresses, as it does for the
    handlers that run during [handle_click]. [Interrupted sig input]: a
    handler cut it short; [sig] is what [caughtsig] holds when the loop
    compares it with [SIGIO] (the number stored by the last handler run
    before that test) and [input] is what stdin holds then. *)
Inductive wake :=
| Timeout
| Interrupted (sig : Z) (input : list Z).

(** What the environment provides to one iteration of the loop. *)
Record cycle_env := mk_cycle_env {
  env_clock : nat -> Z;
  env_sigs : nat -> option Z;
  env_block_update : block -> block;
  env_wake : wake;
}.

(** Calls to the two external collaborators. *)
Inductive event :=
| Dispatch (i : nat) (arg : block)
| Render (s : status_line).

Definition sched_cycle (json_parse : list Z -> string -> Z * Z)
    (cap_button cap_x cap_y : nat) (e : cycle_env) (st : sched_state)
    : sched_state * list event :=
  let '(st1, calls) :=
    update_status_line (env_clock e) (env_sigs e) (env_block_update e) st in
  let evs := map (fun '(i, a) => Dispatch i a) calls ++ [Render (status st1)] in
  let st2 :=
    match env_wake e with
    | Timeout => st1
    | Interrupted sig input =>
        if Z.eqb sig SIGIO then
          mk_sched_state
            (handle_click json_parse cap_button cap_x cap_y input (status st1)) sig
        else mk_sched_state (status st1) sig
    end in
  (st2, evs).

Fixpoint sched_run (json_parse : list Z -> string -> Z * Z)
    (cap_button cap_x cap_y : nat) (envs : list cycle_env) (st : sched_state)
    : sched_state * list event :=
  match envs with
  | [] => (st, [])
  | e :: envs' =>
      let '(st1, evs1) := sched_cycle json_parse cap_button cap_x cap_y e st in
      let '(st2, evs2) := sched_run json_parse cap_button cap_x cap_y envs' st1 in
      (st2, evs1 ++ evs2)
  end.

(** ** sched_init: signal handlers and asynchronous stdin *)

(** [handler]: the signal handler only stores the signal number. *)
Definition handler (signum : Z) (st : sched_state) : sched_state :=
  mk_sched_state (status st) signum.

(** Linux constants. *)
Definition SIGUSR1 : Z := 10.
Definition SIGUSR2 : Z := 12.
Definition SA_RESTART : Z := 268435456.
Definition STDIN_FILENO : Z := 0.
Definition F_GETFL : Z := 3.
Definition F_SETFL : Z := 4.
Definition F_SETOWN : Z := 8.
Definition O_NONBLOCK : Z := 2048.
Definition O_ASYNC : Z := 8192.

(** The system calls of the setup; [Sigaction sig flags] installs
    [handler] for [sig] with an empty mask and [sa_flags = flags]. *)
Inductive syscall :=
| Sigaction (sig flags : Z)
| Isatty (fd : Z)
| Getpid
| Fcntl (fd cmd arg : Z).

(** The setup runs against an operating system [os] that gives each call
    its return value; a computation returns its result and the calls it
    made, in order. *)
Definition io (A : Type) : Type := (syscall -> Z) -> A * list syscall.

#[global] Instance io_ret : MRet io := fun A a _ => (a, []).
#[global] Instance io_bind : MBind io := fun A B f m os =>
  let '(a, t1) := m os in
  let '(b, t2) := f a os in
  (b, t1 ++ t2).

Definition call (c : syscall) : io Z := fun os => (os c, [c]).

Definition sched_use_signal (sig : Z) : io Z :=
  r ← call (Sigaction sig SA_RESTART);
  if Z.eqb r (-1) then mret 1 else mret 0.

Definition sched_event_stdin : io Z :=
  e ← sched_use_signal SIGIO;
  if negb (Z.eqb e 0) then mret 1 else
  pid ← call Getpid;
  r ← call (Fcntl STDIN_FILENO F_SETOWN pid);
  if Z.eqb r (-1) then mret 1 else
  flags ← call (Fcntl STDIN_FILENO F_GETFL 0);
  r ← call (Fcntl STDIN_FILENO F_SETFL (Z.lor flags (Z.lor O_ASYNC O_NONBLOCK)));
  if Z.eqb r (-1) then mret 1 else mret 0.

Definition sched_init : io Z :=
  e ← sched_use_signal SIGUSR1;
  if negb (Z.eqb e 0) then mret 1 else
  e ← sched_use_signal SIGUSR2;
  if negb (Z.eqb e 0) then mret 1 else
  t ← call (Isatty STDIN_FILENO);
  if Z.eqb t 0 then
    e ← sched_event_stdin;
    if negb (Z.eqb e 0) then mret 1 else mret 0
  else mret 0.

(** A call that reports failure: [sigaction] and [fcntl(F_SETOWN)] /
    [fcntl(F_SETFL)] are the checked ones. *)
Definition checked (c : syscall) : bool :=
  match c with
  | Sigaction _ _ => true
  | Fcntl _ cmd _ => Z.eqb cmd F_SETOWN || Z.eqb cmd F_SETFL
  | _ => false
  end.

(** An operating system where installing the SIGUSR2 handler fails. *)
Definition os_fail_usr2 (c : syscall) : Z :=
  match c with
  | Sigaction sig _ => if Z.eqb sig SIGUSR2 then -1 else 0
  | _ => 0
  end.

(** ** Auxiliary definitions of the proofs *)

(** The result of the loop body at index [j], for a block whose template is
    [cfg] (or no template). *)
Definition body_result (cs now : Z) (bu : block -> block)
    (cfg : option block) (u : option block) : option block :=
  match cfg, u with
  | Some c, Some b =>
      match update_block cs now bu c b with
      | Some (_, b') => Some b'
      | None => Some b
      end
  | _, _ => u
  end.

(** The value of [caughtsig] that the loop started at block [i] with
    [caughtsig = cs] reads for block [i + n] (for [n] the number of blocks
    from [i] on, the value it ends with). *)
Fixpoint seen (cs : Z) (sigs : nat -> option Z) (i n : nat) : Z :=
  match n with
  | O => deliver cs (sigs i)
  | S n' => seen (deliver cs (sigs i)) sigs (S i) n'
  end.

(** Whether config block [j] exists and has a command. *)
Definition non_static_at (s : status_line) (j : nat) : bool :=
  match blocks s !! j with
  | Some c => negb (String.eqb (command c) "")
  | None => false
  end.

(** Calls ordered by block index. *)
Definition idx_lt (p q : nat * block) : Prop := (fst p < fst q)%nat.

(** The bytes of a span [st, st + len) contain no NUL. *)
Definition span_nonzero (buf : list Z) (st len : Z) : bool :=
  forallb (fun z => negb (Z.eqb z 0)) (take (Z.to_nat len) (drop (Z.to_nat st) buf)).

Definition is_render (ev : event) : bool :=
  match ev with Render _ => true | Dispatch _ _ => false end.

(** What one [memcpy(click->f, json + st, MIN(len, sizeof(click->f) - 1))]
    into a zeroed array of capacity [cap] leaves there: the array keeps its
    capacity; some [k <= cap - 1] bytes (the length [len] cut at [cap - 1]
    when [len] is a valid size) are the source's, the others, among them
    the last one, stay 0. *)
Definition field_copied (f src : list Z) (st len : Z) (cap : nat) : Prop :=
  length f = cap /\
  exists k, 0 <= k <= Z.of_nat cap - 1 /\
    (0 <= len < 2 ^ 64 -> k = Z.min len (Z.of_nat cap - 1)) /\
    (forall j, Z.of_nat j < k -> f !! j = Some (read_byte src (st + Z.of_nat j))) /\
    (forall j, k <= Z.of_nat j -> (j < cap)%nat -> f !! j = Some 0) /\
    f !! (cap - 1)%nat = Some 0.

(** ** A sample click *)

(** The click of the spec's scenario,
    [,{"name":"vol","instance":"","button":"1","x":"10","y":"20"}] and a
    newline, as the bytes read from stdin. *)
Definition sample_click : list Z :=
  [44; 123; 34; 110; 97; 109; 101; 34; 58; 34; 118; 111; 108; 34; 44; 34; 105;
   110; 115; 116; 97; 110; 99; 101; 34; 58; 34; 34; 44; 34; 98; 117; 116; 116;
   111; 110; 34; 58; 34; 49; 34; 44; 34; 120; 34; 58; 34; 49; 48; 34; 44; 34;
   121; 34; 58; 34; 50; 48; 34; 125; 10].

(** The spans a field extractor reports for [sample_click]. *)
Definition sample_json_parse (_ : list Z) (field : string) : Z * Z :=
  if String.eqb field "name" then (10, 3)
  else if String.eqb field "instance" then (27, 0)
  else if String.eqb field "button" then (39, 1)
  else if String.eqb field "x" then (47, 2)
  else if String.eqb field "y" then (56, 2)
  else (0, 0).

(** ** Examples *)

Example longest_sleep_4_6_0 :
  longest_sleep (mk_status_line
    [mk_block "a" "" "x" 4 0 0 "" (mk_click [] [] []);
     mk_block "b" "" "x" 6 0 0 "" (mk_click [] [] []);
     mk_block "c" "" "x" 0 10 0 "" (mk_click [] [] [])] []) = 2.
Proof. reflexivity. Qed.

(** ** Lemmas on longest_sleep *)

Lemma xor_swap_l (a b : Z) : Z.lxor b (Z.lxor a b) = a.
Proof.
  rewrite (Z.lxor_comm a b), <- Z.lxor_assoc, Z.lxor_nilpotent, Z.lxor_0_l.
  reflexivity.
Qed.

Lemma xor_swap_r (a b : Z) : Z.lxor (Z.lxor a b) a = b.
Proof.
  rewrite Z.lxor_assoc, (Z.lxor_comm b a), <- Z.lxor_assoc, Z.lxor_nilpotent,
    Z.lxor_0_l.
  reflexivity.
Qed.

Lemma gcd_loop_spec (fuel : nat) (a b : Z) :
  0 <= a -> 0 <= b -> b < Z.of_nat fuel -> gcd_loop fuel a b = Z.gcd a b.
Proof.
  revert a b; induction fuel as [|f IH]; intros a b Ha Hb Hf; simpl.
  - lia.
  - destruct (Z.eqb_spec b 0) as [->|Hb0].
    + rewrite Z.gcd_0_r, Z.abs_eq; lia.
    + rewrite (xor_swap_l (Z.rem a b) b), xor_swap_r.
      rewrite Z.rem_mod_nonneg by lia.
      assert (0 <= a mod b < b) by (apply Z.mod_pos_bound; lia).
      rewrite IH by lia.
      rewrite Z.gcd_comm, Z.gcd_mod_l. reflexivity.
Qed.

Lemma gcd_spec (a b : Z) : 0 <= a -> 0 <= b -> gcd a b = Z.gcd a b.
Proof.
  intros Ha Hb. unfold gcd. apply gcd_loop_spec; auto.
  rewrite Z.abs_eq by lia. lia.
Qed.

Lemma fold_gcd_nonneg (l : list Z) (t : Z) :
  0 <= t -> 0 <= fold_left Z.gcd l t.
Proof.
  revert t; induction l as [|x l IH]; intros t Ht; simpl; auto.
  apply IH, Z.gcd_nonneg.
Qed.

Lemma fold_gcd_filter (l : list Z) (t : Z) :
  0 <= t ->
  fold_left Z.gcd l t = fold_left Z.gcd (List.filter (fun x => negb (Z.eqb x 0)) l) t.
Proof.
  revert t; induction l as [|x l IH]; intros t Ht; simpl; auto.
  destruct (Z.eqb_spec x 0) as [->|Hx]; simpl.
  - rewrite Z.gcd_0_r, Z.abs_eq by lia. auto.
  - apply IH, Z.gcd_nonneg.
Qed.

Lemma fold_gcd_divides (l : list Z) (t : Z) :
  (fold_left Z.gcd l t | t) /\ (forall x, In x l -> (fold_left Z.gcd l t | x)).
Proof.
  revert t; induction l as [|x l IH]; intros t; simpl.
  - split; [apply Z.divide_refl | tauto].
  - destruct (IH (Z.gcd t x)) as [H1 H2]. split.
    + eapply Z.divide_trans; [exact H1 | apply Z.gcd_divide_l].
    + intros y [->|Hy]; auto.
      eapply Z.divide_trans; [exact H1 | apply Z.gcd_divide_r].
Qed.

Lemma fold_gcd_greatest (l : list Z) (t d : Z) :
  (d | t) -> (forall x, In x l -> (d | x)) -> (d | fold_left Z.gcd l t).
Proof.
  revert t; induction l as [|x l IH]; intros t Ht Hl; simpl; auto.
  apply IH; auto using in_eq, in_cons.
  apply Z.gcd_greatest; auto using in_eq.
Qed.

Lemma fold_gcd_zero (l : list Z) (t : Z) :
  fold_left Z.gcd l t = 0 <-> t = 0 /\ Forall (fun x => x = 0) l.
Proof.
  revert t; induction l as [|x l IH]; intros t; simpl.
  - split; [auto | tauto].
  - rewrite IH, Z.gcd_eq_0, Forall_cons. tauto.
Qed.

Lemma to_int_small (x : Z) : 0 <= x <= INT_MAX -> to_int x = x.
Proof.
  unfold to_int, INT_MAX. intros Hx.
  rewrite Z.mod_small by lia. lia.
Qed.

Lemma fold_code_gcd (rest : list block) (t : Z) :
  0 <= t -> Forall (fun b => 0 <= interval b <= INT_MAX) rest ->
  fold_left (fun t b => gcd t (to_int (interval b))) rest t =
  fold_left Z.gcd (map interval rest) t.
Proof.
  revert t; induction rest as [|b rest IH]; intros t Ht Hall; simpl; auto.
  apply Forall_cons in Hall as [Hb Hall].
  rewrite to_int_small, gcd_spec by lia.
  apply IH; auto. apply Z.gcd_nonneg.
Qed.

(** The value folded by [longest_sleep] is the GCD of all intervals. *)
Lemma longest_sleep_fold (s : status_line) :
  Forall (fun b => 0 <= interval b <= INT_MAX) (blocks s) ->
  longest_sleep s =
    (let t := fold_left Z.gcd (map interval (blocks s)) 0 in
     if Z.gtb t 0 then t else 5).
Proof.
  unfold longest_sleep. destruct (blocks s) as [|b0 rest]; simpl; auto.
  intros Hall. apply Forall_cons in Hall as [Hb Hall].
  rewrite to_int_small by lia.
  rewrite fold_code_gcd; [| lia | exact Hall].
  rewrite Z.gcd_0_l, Z.abs_eq by lia. reflexivity.
Qed.

Lemma In_filter_nonzero (x : Z) (l : list Z) :
  In x (List.filter (fun x => negb (Z.eqb x 0)) l) <-> In x l /\ x <> 0.
Proof.
  rewrite filter_In. destruct (Z.eqb_spec x 0); simpl; intuition congruence.
Qed.

(** C1: with every interval a non-negative [int] (the type [longest_sleep]
    reads them in), the planned sleep is the GCD of the nonzero intervals,
    divides each of them and is divided by all their common divisors; when
    there is no block or every interval is 0 it is the default 5. *)
Theorem longest_sleep_is_gcd (s : status_line) :
  Forall (fun b => 0 <= interval b <= INT_MAX) (blocks s) ->
  let ivs := map interval (blocks s) in
  (Exists (fun x => x <> 0) ivs ->
     longest_sleep s = gcd_nonzero ivs /\
     (forall x, In x ivs -> x <> 0 -> (longest_sleep s | x)) /\
     (forall d, (forall x, In x ivs -> x <> 0 -> (d | x)) ->
                (d | longest_sleep s))) /\
  (Forall (fun x => x = 0) ivs -> longest_sleep s = 5).
Proof.
  intros Hall ivs. rewrite (longest_sleep_fold s Hall). fold ivs. cbv zeta.
  rewrite (fold_gcd_filter ivs 0) by lia. fold (gcd_nonzero ivs).
  assert (Hnn : 0 <= gcd_nonzero ivs) by (apply fold_gcd_nonneg; lia).
  split.
  - intros Hex.
    assert (Hpos : gcd_nonzero ivs <> 0).
    { unfold gcd_nonzero. rewrite fold_gcd_zero. intros [_ Hz].
      apply List.Exists_exists in Hex as [x [Hx Hx0]].
      rewrite List.Forall_forall in Hz. apply Hx0, Hz, In_filter_nonzero. auto. }
    replace (Z.gtb (gcd_nonzero ivs) 0) with true by lia.
    split; [reflexivity | split].
    + intros x Hx Hx0. apply (proj2 (fold_gcd_divides _ 0)).
      apply In_filter_nonzero. auto.
    + intros d Hd. apply fold_gcd_greatest; [apply Z.divide_0_r |].
      intros x Hx. apply In_filter_nonzero in Hx as [Hx Hx0]. auto.
  - intros Hz.
    assert (Hzero : gcd_nonzero ivs = 0).
    { unfold gcd_nonzero. apply fold_gcd_zero. split; auto.
      rewrite List.Forall_forall in *. intros x Hx.
      apply In_filter_nonzero in Hx as [Hx _]. auto. }
    rewrite Hzero. reflexivity.
Qed.

(** Witness: the intervals 4, 6 and 0 of the spec's end-to-end scenario. *)
Lemma longest_sleep_is_gcd_witness :
  longest_sleep (mk_status_line
    [mk_block "a" "" "x" 4 0 0 "" (mk_click [] [] []);
     mk_block "b" "" "x" 6 0 0 "" (mk_click [] [] []);
     mk_block "c" "" "x" 0 10 0 "" (mk_click [] [] [])] []) = 2 /\
  longest_sleep (mk_status_line
    [mk_block "a" "" "x" 4 0 0 "" (mk_click [] [] []);
     mk_block "b" "" "x" 6 0 0 "" (mk_click [] [] []);
     mk_block "c" "" "x" 0 10 0 "" (mk_click [] [] [])] []) =
    gcd_nonzero [4; 6; 0].
Proof.
  split; [reflexivity |].
  apply (longest_sleep_is_gcd (mk_status_line
    [mk_block "a" "" "x" 4 0 0 "" (mk_click [] [] []);
     mk_block "b" "" "x" 6 0 0 "" (mk_click [] [] []);
     mk_block "c" "" "x" 0 10 0 "" (mk_click [] [] [])] [])).
  - repeat constructor; unfold INT_MAX; simpl; lia.
  - simpl. apply Exists_cons_hd. lia.
Defined.

(** ** Lemmas on need_update *)

(** On 64-bit words, "the difference [next - now] is not positive" and
    "the difference [now - next] is not negative" agree except at the
    difference [2^63]. *)
Lemma signed_diff_flip (next now : Z) :
  0 <= next < 2 ^ 64 -> 0 <= now < 2 ^ 64 ->
  ulong (now - next) <> 2 ^ 63 ->
  Z.leb (to_long (ulong (next - now))) 0 = Z.leb 0 (to_long (ulong (now - next))).
Proof.
  unfold to_long, ulong. intros Hn Hw Hne.
  apply Bool.eq_true_iff_eq. rewrite !Z.leb_le.
  Z.to_euclidean_division_equations. lia.
Qed.

Lemma need_update_no_wake (cs now : Z) (b : block) :
  interval b <> 0 -> last_update b <> 0 ->
  (cs = 0 \/ (cs <> signal b /\ button_set (bclick b) = false)) ->
  need_update cs now b =
    Z.leb (to_long (ulong (ulong (last_update b + interval b) - now))) 0.
Proof.
  intros Hi Hl Hcs. unfold need_update.
  rewrite (proj2 (Z.eqb_neq _ _) Hl), (proj2 (Z.eqb_neq _ _) Hi). simpl.
  destruct Hcs as [-> | [Hs Hb]]; simpl.
  - rewrite !Bool.orb_false_r. reflexivity.
  - destruct (Z.eqb_spec cs 0); simpl; rewrite ?Hb.
    + rewrite !Bool.orb_false_r. reflexivity.
    + rewrite (proj2 (Z.eqb_neq _ _) Hs). rewrite !Bool.orb_false_r.
      reflexivity.
Qed.

(** C2 (counterexample): a block that has never run ([last_update = 0],
    interval 10, no signal, no click) is refreshed at [now = 5] although
    [now - (last_update + interval) = -5 < 0]: [first_time] holds. *)
Lemma need_update_first_time_cex :
  need_update 0 5 (mk_block "t" "" "cmd" 10 0 0 "" (mk_click [0] [0] [0])) = true /\
  Z.leb 0 (to_long (ulong (5 - (0 + 10)))) = false.
Proof. split; reflexivity. Qed.

(** At the one difference where the two signed comparisons part, [2^63],
    the code decides "outdated" while [now - next_update] is negative as a
    [long]. *)
Lemma need_update_half_range :
  need_update 0 1 (mk_block "t" "" "cmd" 1 0 (2 ^ 63) "" (mk_click [0] [0] [0])) = true /\
  Z.leb 0 (to_long (ulong (1 - (2 ^ 63 + 1)))) = false.
Proof. split; reflexivity. Qed.

(** C2 (amended): a block that has never run ([last_update = 0]) is always
    refreshed ([first_time]). For a block with nonzero interval that has
    already run ([last_update <> 0]), with no signal for it and no click,
    the decision is [(long)(last_update + interval - now) <= 0] on 64-bit
    words; this equals [(long)(now - (last_update + interval)) >= 0]
    except when that difference is exactly [2^63]. *)
Theorem need_update_outdated_signed (cs now : Z) (b : block) :
  (last_update b = 0 -> need_update cs now b = true) /\
  (0 <= now < 2 ^ 64 ->
   interval b <> 0 -> last_update b <> 0 ->
   (cs = 0 \/ (cs <> signal b /\ button_set (bclick b) = false)) ->
   need_update cs now b =
     Z.leb (to_long (ulong (ulong (last_update b + interval b) - now))) 0 /\
   (ulong (now - (last_update b + interval b)) <> 2 ^ 63 ->
    need_update cs now b =
      Z.leb 0 (to_long (ulong (now - (last_update b + interval b)))))).
Proof.
  split.
  - intros H0. unfold need_update. rewrite H0. simpl.
    destruct (negb (cs =? 0)); reflexivity.
  - intros Hnow Hi Hl Hcs.
    rewrite (need_update_no_wake cs now b Hi Hl Hcs). split; [reflexivity |].
    intros Hne.
    assert (Heq : ulong (now - ulong (last_update b + interval b)) =
                  ulong (now - (last_update b + interval b))).
    { unfold ulong. apply Zminus_mod_idemp_r. }
    rewrite <- Heq. apply signed_diff_flip; auto.
    + unfold ulong. apply Z.mod_pos_bound. lia.
    + rewrite Heq. exact Hne.
Qed.

Lemma need_update_outdated_signed_witness :
  need_update SIGUSR1 5 (mk_block "t" "" "cmd" 10 0 0 "" (mk_click [0] [0] [0])) = true /\
  need_update 0 14 (mk_block "t" "" "cmd" 4 0 10 "" (mk_click [0] [0] [0])) =
    Z.leb 0 (to_long (ulong (14 - (10 + 4)))).
Proof.
  split.
  - apply (proj1 (need_update_outdated_signed SIGUSR1 5
             (mk_block "t" "" "cmd" 10 0 0 "" (mk_click [0] [0] [0])))).
    reflexivity.
  - apply (proj2 (proj2 (need_update_outdated_signed 0 14
             (mk_block "t" "" "cmd" 4 0 10 "" (mk_click [0] [0] [0])))
             ltac:(lia) ltac:(simpl; lia) ltac:(simpl; lia) ltac:(left; reflexivity))).
    vm_compute. discriminate.
Defined.

(** C3 (counterexample): with wake reason "none" ([caughtsig = 0]), a block
    that has run, has no interval and holds a click with button "1" is not
    refreshed: the clicked condition is only evaluated under
    [if (caughtsig)]. *)
Lemma need_update_click_no_signal_cex :
  button_set (mk_click [49; 0] [0] [0]) = true /\
  need_update 0 50 (mk_block "vol" "" "cmd" 0 0 100 "" (mk_click [49; 0] [0] [0]))
    = false.
Proof. split; reflexivity. Qed.

(** C3 (amended): the clicked condition holds exactly when the wake reason
    is not "none" and the button field is non-empty. A pending click forces
    a refresh whenever [caughtsig <> 0]; with [caughtsig = 0] the click
    payload has no effect on the decision. *)
Theorem need_update_clicked_gated (cs now : Z) (b : block) :
  (cs <> 0 -> button_set (bclick b) = true -> need_update cs now b = true) /\
  (cs = 0 -> forall c, need_update cs now (set_click b c) = need_update cs now b).
Proof.
  split.
  - intros Hcs Hb. unfold need_update.
    rewrite (proj2 (Z.eqb_neq _ _) Hcs), Hb. simpl.
    rewrite !Bool.orb_true_r. reflexivity.
  - intros -> c. reflexivity.
Qed.

Lemma need_update_clicked_gated_witness :
  need_update SIGIO 50
    (mk_block "vol" "" "cmd" 0 0 100 "" (mk_click [49; 0] [0] [0])) = true.
Proof.
  apply (proj1 (need_update_clicked_gated SIGIO 50
    (mk_block "vol" "" "cmd" 0 0 100 "" (mk_click [49; 0] [0] [0])))).
  - unfold SIGIO. lia.
  - reflexivity.
Defined.

(** ** Lemmas on update_status_line *)

Lemma loop_body_lookup (cs now : Z) (bu : block -> block) (i j : nat)
    (cfg : block) (upd : list block) :
  (fst (loop_body cs now bu i cfg upd)) !! j =
    if decide (j = i) then body_result cs now bu (Some cfg) (upd !! i)
    else upd !! j.
Proof.
  unfold loop_body, body_result.
  destruct (upd !! i) as [u|] eqn:Hu; simpl.
  - destruct (update_block cs now bu cfg u) as [[a b']|] eqn:Hb; simpl.
    + destruct (decide (j = i)) as [->|Hne].
      * apply list_lookup_insert_eq. apply lookup_lt_is_Some. eauto.
      * apply list_lookup_insert_ne. congruence.
    + destruct (decide (j = i)) as [->|Hne]; auto.
  - destruct (decide (j = i)) as [->|Hne]; auto.
Qed.

Lemma loop_body_call (cs now : Z) (bu : block -> block) (i : nat)
    (cfg : block) (upd : list block) (a : block) :
  snd (loop_body cs now bu i cfg upd) = Some a <->
  exists u b', upd !! i = Some u /\ update_block cs now bu cfg u = Some (a, b').
Proof.
  unfold loop_body.
  destruct (upd !! i) as [u|] eqn:Hu; simpl.
  - destruct (update_block cs now bu cfg u) as [[a' b']|] eqn:Hb; simpl.
    + split; [intros [= ->]; eauto | intros (u' & b'' & [= <-] & Hb')].
      congruence.
    + split; [discriminate | intros (u' & b'' & [= <-] & Hb'); congruence].
  - split; [discriminate | intros (u' & b'' & ? & _); discriminate].
Qed.

Lemma loop_body_length (cs now : Z) (bu : block -> block) (i : nat)
    (cfg : block) (upd : list block) :
  length (fst (loop_body cs now bu i cfg upd)) = length upd.
Proof.
  unfold loop_body. destruct (upd !! i); simpl; auto.
  destruct (update_block _ _ _ _ _) as [[? ?]|]; simpl; auto.
  apply length_insert.
Qed.

Lemma body_result_none (cs now : Z) (bu : block -> block) (u : option block) :
  body_result cs now bu None u = u.
Proof. reflexivity. Qed.

Lemma update_loop_lookup (clock : nat -> Z) (sigs : nat -> option Z)
    (bu : block -> block) :
  forall (cfgs : list block) (cs : Z) (i : nat) (upd : list block) (j : nat),
  fst (fst (update_loop cs clock sigs bu i cfgs upd)) !! j =
    if Nat.leb i j
    then body_result (seen cs sigs i (j - i)) (clock j) bu (cfgs !! (j - i)%nat) (upd !! j)
    else upd !! j.
Proof.
  induction cfgs as [|c cfgs IH]; intros cs i upd j; simpl.
  - destruct (Nat.leb i j); [| reflexivity].
    destruct (j - i)%nat; reflexivity.
  - destruct (loop_body (deliver cs (sigs i)) (clock i) bu i c upd) as [upd1 call] eqn:Hl.
    destruct (update_loop (deliver cs (sigs i)) clock sigs bu (S i) cfgs upd1)
      as [[upd2 calls] cs2] eqn:E.
    simpl. pose proof (IH (deliver cs (sigs i)) (S i) upd1 j) as H.
    rewrite E in H. cbn [fst snd] in H. rewrite H.
    pose proof (loop_body_lookup (deliver cs (sigs i)) (clock i) bu i j c upd) as Hb.
    rewrite Hl in Hb. simpl in Hb.
    destruct (lt_eq_lt_dec j i) as [[Hlt| ->]|Hgt].
    + rewrite (proj2 (Nat.leb_gt (S i) j)) by lia.
      rewrite (proj2 (Nat.leb_gt i j)) by lia.
      rewrite Hb. destruct (decide (j = i)); [lia | reflexivity].
    + rewrite (proj2 (Nat.leb_gt (S i) i)) by lia.
      rewrite Nat.leb_refl, Nat.sub_diag. simpl.
      rewrite Hb. destruct (decide (i = i)); [reflexivity | congruence].
    + rewrite (proj2 (Nat.leb_le (S i) j)) by lia.
      rewrite (proj2 (Nat.leb_le i j)) by lia.
      replace (j - i)%nat with (S (j - S i)) by lia. simpl.
      rewrite Hb. destruct (decide (j = i)); [lia | reflexivity].
Qed.

Lemma update_loop_calls (clock : nat -> Z) (sigs : nat -> option Z)
    (bu : block -> block) :
  forall (cfgs : list block) (cs : Z) (i : nat) (upd : list block) (j : nat) (a : block),
  In (j, a) (snd (fst (update_loop cs clock sigs bu i cfgs upd))) <->
  (i <= j)%nat /\
  exists cfg u b', cfgs !! (j - i)%nat = Some cfg /\ upd !! j = Some u /\
    update_block (seen cs sigs i (j - i)) (clock j) bu cfg u = Some (a, b').
Proof.
  induction cfgs as [|c cfgs IH]; intros cs i upd j a; simpl.
  - split; [tauto |]. intros (_ & cfg & _ & _ & H & _). discriminate.
  - destruct (loop_body (deliver cs (sigs i)) (clock i) bu i c upd) as [upd1 call] eqn:Hl.
    destruct (update_loop (deliver cs (sigs i)) clock sigs bu (S i) cfgs upd1)
      as [[upd2 calls] cs2] eqn:E.
    simpl. pose proof (IH (deliver cs (sigs i)) (S i) upd1 j a) as H.
    rewrite E in H. cbn [fst snd] in H.
    pose proof (loop_body_lookup (deliver cs (sigs i)) (clock i) bu i j c upd) as Hb.
    rewrite Hl in Hb. simpl in Hb.
    pose proof (loop_body_call (deliver cs (sigs i)) (clock i) bu i c upd a) as Hc.
    rewrite Hl in Hc. simpl in Hc.
    assert (Hcalls : In (j, a) (match call with Some a0 => (i, a0) :: calls
                                 | None => calls end) <->
                     (j = i /\ call = Some a) \/ In (j, a) calls).
    { destruct call as [a0|]; simpl; split.
      - intros [[= -> ->] | Hin]; auto.
      - intros [[-> [= ->]] | Hin]; auto.
      - intros Hin; auto.
      - intros [[_ ?] | Hin]; [discriminate | auto]. }
    rewrite Hcalls, H. clear Hcalls H.
    destruct (lt_eq_lt_dec j i) as [[Hlt| ->]|Hgt].
    + split; [intros [[? _] | [? _]]; lia | intros [? _]; lia].
    + rewrite Hc, Nat.sub_diag. simpl. split.
      * intros [[_ (u & b' & Hu & Hu')] | [? _]]; [| lia].
        split; [lia |]. exists c, u, b'. auto.
      * intros (_ & cfg & u & b' & [= <-] & Hu & Hu'). left. eauto.
    + replace (j - i)%nat with (S (j - S i)) by lia. simpl.
      rewrite Hb. destruct (decide (j = i)); [lia |].
      split.
      * intros [[? _] | [_ Hx]]; [lia |]. split; [lia | exact Hx].
      * intros [_ Hx]. right. split; [lia | exact Hx].
Qed.

Lemma update_loop_length (clock : nat -> Z) (sigs : nat -> option Z)
    (bu : block -> block) :
  forall (cfgs : list block) (cs : Z) (i : nat) (upd : list block),
  length (fst (fst (update_loop cs clock sigs bu i cfgs upd))) = length upd.
Proof.
  induction cfgs as [|c cfgs IH]; intros cs i upd; simpl; auto.
  destruct (loop_body (deliver cs (sigs i)) (clock i) bu i c upd) as [upd1 call] eqn:Hl.
  destruct (update_loop (deliver cs (sigs i)) clock sigs bu (S i) cfgs upd1)
    as [[upd2 calls] cs2] eqn:E.
  simpl. pose proof (IH (deliver cs (sigs i)) (S i) upd1) as H.
  rewrite E in H. cbn [fst snd] in H.
  rewrite H. pose proof (loop_body_length (deliver cs (sigs i)) (clock i) bu i c upd) as H'.
  rewrite Hl in H'. exact H'.
Qed.

Lemma update_loop_final (clock : nat -> Z) (sigs : nat -> option Z)
    (bu : block -> block) :
  forall (cfgs : list block) (cs : Z) (i : nat) (upd : list block),
  snd (update_loop cs clock sigs bu i cfgs upd) = seen cs sigs i (length cfgs).
Proof.
  induction cfgs as [|c cfgs IH]; intros cs i upd; simpl; auto.
  destruct (loop_body (deliver cs (sigs i)) (clock i) bu i c upd) as [upd1 call].
  pose proof (IH (deliver cs (sigs i)) (S i) upd1) as H.
  destruct (update_loop (deliver cs (sigs i)) clock sigs bu (S i) cfgs upd1)
    as [[upd2 calls] cs2]. exact H.
Qed.

Lemma update_status_line_blocks (clock : nat -> Z) (sigs : nat -> option Z)
    (bu : block -> block) (st : sched_state) :
  blocks (status (fst (update_status_line clock sigs bu st))) = blocks (status st).
Proof.
  unfold update_status_line.
  destruct (update_loop _ _ _ _ _ _ _) as [[upd' calls] cs]. reflexivity.
Qed.

Lemma update_status_line_caughtsig (clock : nat -> Z) (sigs : nat -> option Z)
    (bu : block -> block) (st : sched_state) :
  caughtsig (fst (update_status_line clock sigs bu st)) =
    let cs := seen (caughtsig st) sigs 0 (length (blocks (status st))) in
    if Z.gtb cs 0 then 0 else cs.
Proof.
  unfold update_status_line.
  pose proof (update_loop_final clock sigs bu (blocks (status st)) (caughtsig st) 0
                (updated_blocks (status st))) as H.
  destruct (update_loop _ _ _ _ _ _ _) as [[upd' calls] cs]. simpl in *.
  rewrite H. reflexivity.
Qed.

Lemma update_status_line_lookup (clock : nat -> Z) (sigs : nat -> option Z)
    (bu : block -> block) (st : sched_state) (j : nat) :
  updated_blocks (status (fst (update_status_line clock sigs bu st))) !! j =
    body_result (seen (caughtsig st) sigs 0 j) (clock j) bu (blocks (status st) !! j)
      (updated_blocks (status st) !! j).
Proof.
  unfold update_status_line.
  pose proof (update_loop_lookup clock sigs bu (blocks (status st)) (caughtsig st) 0
                (updated_blocks (status st)) j) as H.
  destruct (update_loop _ _ _ _ _ _ _) as [[upd' calls] cs]. simpl in *.
  rewrite H, Nat.sub_0_r. reflexivity.
Qed.

Lemma update_status_line_calls (clock : nat -> Z) (sigs : nat -> option Z)
    (bu : block -> block) (st : sched_state) (j : nat) (a : block) :
  In (j, a) (snd (update_status_line clock sigs bu st)) <->
  exists cfg u b', blocks (status st) !! j = Some cfg /\
    updated_blocks (status st) !! j = Some u /\
    update_block (seen (caughtsig st) sigs 0 j) (clock j) bu cfg u = Some (a, b').
Proof.
  unfold update_status_line.
  pose proof (update_loop_calls clock sigs bu (blocks (status st)) (caughtsig st) 0
                (updated_blocks (status st)) j a) as H.
  destruct (update_loop _ _ _ _ _ _ _) as [[upd' calls] cs]. simpl in *.
  rewrite H, Nat.sub_0_r. split; [intros [_ Hx]; exact Hx | intros Hx; split; [lia | exact Hx]].
Qed.

Lemma update_status_line_length (clock : nat -> Z) (sigs : nat -> option Z)
    (bu : block -> block) (st : sched_state) :
  length (updated_blocks (status (fst (update_status_line clock sigs bu st)))) =
  length (updated_blocks (status st)).
Proof.
  unfold update_status_line.
  pose proof (update_loop_length clock sigs bu (blocks (status st)) (caughtsig st) 0
                (updated_blocks (status st))) as H.
  destruct (update_loop _ _ _ _ _ _ _) as [[upd' calls] cs]. exact H.
Qed.

Lemma seen_none (sigs : nat -> option Z) :
  forall n i cs, (forall k, (i <= k <= i + n)%nat -> sigs k = None) ->
  seen cs sigs i n = cs.
Proof.
  induction n as [|n IH]; intros i cs H; simpl.
  - rewrite (H i) by lia. reflexivity.
  - rewrite (H i) by lia. simpl. apply IH. intros k Hk. apply H. lia.
Qed.


Lemma seen_pos (sigs : nat -> option Z) :
  (forall k s, sigs k = Some s -> 0 < s) ->
  forall n i cs, 0 <= cs -> 0 <= seen cs sigs i n.
Proof.
  intros Hs. induction n as [|n IH]; intros i cs Hcs; simpl.
  - destruct (sigs i) as [s|] eqn:E; simpl; [apply Hs in E; lia | exact Hcs].
  - apply IH. destruct (sigs i) as [s|] eqn:E; simpl; [apply Hs in E; lia | exact Hcs].
Qed.

Lemma update_block_some (cs now : Z) (bu : block -> block) (cfg u a b' : block) :
  update_block cs now bu cfg u = Some (a, b') <->
  command cfg <> "" /\ need_update cs now u = true /\
  a = set_click cfg (bclick u) /\ b' = set_click (bu a) (zero_click (bclick (bu a))).
Proof.
  unfold update_block.
  destruct (String.eqb_spec (command cfg) "") as [Hc|Hc].
  - split; [discriminate | intros [? _]; contradiction].
  - destruct (need_update cs now u) eqn:Hn.
    + split; [intros [= <- <-]; auto | intros (_ & _ & -> & ->); reflexivity].
    + split; [discriminate | intros (_ & ? & _); discriminate].
Qed.

Lemma update_block_none (cs now : Z) (bu : block -> block) (cfg u : block) :
  update_block cs now bu cfg u = None <->
  command cfg = "" \/ need_update cs now u = false.
Proof.
  unfold update_block.
  destruct (String.eqb_spec (command cfg) "") as [Hc|Hc].
  - split; auto.
  - destruct (need_update cs now u); split; try discriminate; auto.
    intros [? | ?]; [contradiction | discriminate].
Qed.

Lemma zero_click_empty (c : click) : click_empty (zero_click c).
Proof.
  unfold click_empty, zero_click. simpl.
  repeat split; apply List.Forall_forall; intros x Hx;
    apply in_map_iff in Hx as (y & <- & _); reflexivity.
Qed.

(** C4 (counterexample): a static block (empty command) whose runtime copy
    holds a click with button "1" still holds it after the pass. *)
Lemma update_status_line_static_click_cex :
  let st := mk_sched_state
    (mk_status_line [mk_block "vol" "" "" 0 0 0 "" (mk_click [0; 0] [0] [0])]
                    [mk_block "vol" "" "" 0 0 0 "" (mk_click [49; 0] [0] [0])])
    SIGIO in
  updated_blocks (status (fst (update_status_line (fun _ => 0) (fun _ => None) (fun b => b) st))) =
    [mk_block "vol" "" "" 0 0 0 "" (mk_click [49; 0] [0] [0])] /\
  button_set (mk_click [49; 0] [0] [0]) = true.
Proof. split; reflexivity. Qed.

(** C4 (amended): a block is dispatched by the pass exactly when it is not
    static and its decision is true, the decision reading [caughtsig] as it
    is when that block is checked (whatever signals the pass catches);
    after the pass every dispatched block
    has an empty click payload, and every block not dispatched (static, or
    decided false) is left unchanged, its click payload included. *)
Theorem update_status_line_click_cleared (clock : nat -> Z) (sigs : nat -> option Z)
    (bu : block -> block)
    (st : sched_state) (j : nat) (cfg u : block) :
  blocks (status st) !! j = Some cfg ->
  updated_blocks (status st) !! j = Some u ->
  let '(st', calls) := update_status_line clock sigs bu st in
  ((exists a, In (j, a) calls) <->
     command cfg <> "" /\
     need_update (seen (caughtsig st) sigs 0 j) (clock j) u = true) /\
  ((exists a, In (j, a) calls) ->
     exists b', updated_blocks (status st') !! j = Some b' /\ click_empty (bclick b')) /\
  ((forall a, ~ In (j, a) calls) ->
     updated_blocks (status st') !! j = Some u).
Proof.
  intros Hcfg Hu.
  pose proof (update_status_line_lookup clock sigs bu st j) as Hl.
  pose proof (update_status_line_calls clock sigs bu st j) as Hc.
  destruct (update_status_line clock sigs bu st) as [st' calls]. simpl in Hl, Hc.
  rewrite Hcfg, Hu in Hl. simpl in Hl.
  split; [| split].
  - split.
    + intros [a Ha]. apply Hc in Ha as (cfg' & u' & b' & Hcfg' & Hu' & Hb).
      rewrite Hcfg in Hcfg'. rewrite Hu in Hu'. injection Hcfg' as <-.
      injection Hu' as <-. apply update_block_some in Hb. tauto.
    + intros [Hcmd Hn].
      exists (set_click cfg (bclick u)). apply Hc.
      exists cfg, u, (set_click (bu (set_click cfg (bclick u)))
                        (zero_click (bclick (bu (set_click cfg (bclick u)))))).
      split; [exact Hcfg | split; [exact Hu |]].
      apply update_block_some. repeat split; auto.
  - intros [a Ha]. apply Hc in Ha as (cfg' & u' & b' & Hcfg' & Hu' & Hb).
    rewrite Hcfg in Hcfg'. rewrite Hu in Hu'. injection Hcfg' as <-.
    injection Hu' as <-. rewrite Hb in Hl. exists b'. split; [exact Hl |].
    apply update_block_some in Hb as (_ & _ & _ & ->). apply zero_click_empty.
  - intros Hno. destruct (update_block (seen (caughtsig st) sigs 0 j) (clock j) bu cfg u)
      as [[a b']|] eqn:Hb; [| exact Hl].
    exfalso. apply (Hno a). apply Hc. exists cfg, u, b'. auto.
Qed.

Lemma update_status_line_click_cleared_witness :
  exists b',
    updated_blocks (status (fst (update_status_line (fun _ => 0) (fun _ => None) (fun b => b)
      (mk_sched_state
        (mk_status_line [mk_block "vol" "" "x" 0 0 0 "" (mk_click [0; 0] [0] [0])]
                        [mk_block "vol" "" "x" 0 0 7 "" (mk_click [49; 0] [0] [0])])
        SIGIO)))) !! 0%nat = Some b' /\ click_empty (bclick b').
Proof.
  pose proof (update_status_line_click_cleared (fun _ => 0) (fun _ => None) (fun b => b)
    (mk_sched_state
      (mk_status_line [mk_block "vol" "" "x" 0 0 0 "" (mk_click [0; 0] [0] [0])]
                      [mk_block "vol" "" "x" 0 0 7 "" (mk_click [49; 0] [0] [0])])
      SIGIO) 0 (mk_block "vol" "" "x" 0 0 0 "" (mk_click [0; 0] [0] [0]))
    (mk_block "vol" "" "x" 0 0 7 "" (mk_click [49; 0] [0] [0]))
    eq_refl eq_refl) as H.
  destruct (update_status_line _ _ _ _) as [st' calls] eqn:E.
  destruct H as (_ & H & _). apply H.
  exists (mk_block "vol" "" "x" 0 0 0 "" (mk_click [49; 0] [0] [0])).
  vm_compute in E. injection E as _ <-. left. reflexivity.
Defined.

(** C5: every call of [block_update] made by the pass, for block [j], gets
    the config block [j] in every field but the click payload, which is the
    one the runtime block [j] held before the pass; once the call returns
    the runtime block [j] is its result with the click payload zeroed. *)
Theorem update_status_line_dispatch_arg (clock : nat -> Z) (sigs : nat -> option Z)
    (bu : block -> block)
    (st : sched_state) (j : nat) (a : block) :
  In (j, a) (snd (update_status_line clock sigs bu st)) ->
  exists cfg u,
    blocks (status st) !! j = Some cfg /\
    updated_blocks (status st) !! j = Some u /\
    name a = name cfg /\ instance a = instance cfg /\
    command a = command cfg /\ interval a = interval cfg /\
    signal a = signal cfg /\ last_update a = last_update cfg /\
    full_text a = full_text cfg /\
    bclick a = bclick u /\
    updated_blocks (status (fst (update_status_line clock sigs bu st))) !! j =
      Some (set_click (bu a) (zero_click (bclick (bu a)))) /\
    click_empty (zero_click (bclick (bu a))).
Proof.
  intros Ha.
  pose proof (update_status_line_lookup clock sigs bu st j) as Hl.
  apply update_status_line_calls in Ha as (cfg & u & b' & Hcfg & Hu & Hb).
  rewrite Hcfg, Hu in Hl. simpl in Hl. rewrite Hb in Hl.
  apply update_block_some in Hb as (_ & _ & Ha & Hb').
  exists cfg, u. subst a b'.
  refine (conj Hcfg (conj Hu _)).
  do 8 (split; [reflexivity |]).
  split; [exact Hl | apply zero_click_empty].
Qed.

Lemma update_status_line_dispatch_arg_witness :
  exists cfg u,
    mk_block "vol" "" "x" 0 0 0 "" (mk_click [0; 0] [0] [0]) = cfg /\
    bclick u = mk_click [49; 0] [0] [0] /\
    last_update (mk_block "vol" "" "x" 0 0 0 "" (mk_click [49; 0] [0] [0])) =
      last_update cfg.
Proof.
  destruct (update_status_line_dispatch_arg (fun _ => 0) (fun _ => None) (fun b => b)
    (mk_sched_state
      (mk_status_line [mk_block "vol" "" "x" 0 0 0 "" (mk_click [0; 0] [0] [0])]
                      [mk_block "vol" "" "x" 0 0 7 "" (mk_click [49; 0] [0] [0])])
      SIGIO) 0 (mk_block "vol" "" "x" 0 0 0 "" (mk_click [49; 0] [0] [0])))
    as (cfg & u & Hcfg & Hu & _ & _ & _ & _ & _ & Hlu & _ & Hc & _).
  - vm_compute. left. reflexivity.
  - exists cfg, u. simpl in Hcfg, Hu. injection Hcfg as <-. injection Hu as <-.
    simpl in *. auto.
Defined.




(** ** Lemmas on handle_click *)

Lemma find_and_click_first (nm inst : string) (c : click) :
  forall (upd : list block) (k : nat) (b : block),
  upd !! k = Some b -> name b = nm -> instance b = inst ->
  (forall k' b', (k' < k)%nat -> upd !! k' = Some b' ->
     ~ (name b' = nm /\ instance b' = inst)) ->
  find_and_click nm inst c upd = <[k := set_click b c]> upd.
Proof.
  induction upd as [|b0 upd IH]; intros k b Hk Hn Hi Hbefore; [discriminate |].
  destruct k as [|k]; simpl in *.
  - injection Hk as ->. subst nm inst.
    rewrite !String.eqb_refl. reflexivity.
  - destruct (String.eqb_spec (name b0) nm), (String.eqb_spec (instance b0) inst);
      simpl.
    + exfalso. apply (Hbefore 0%nat b0); auto. lia.
    + f_equal. apply IH; auto.
      intros k' b' Hlt Hk'. apply (Hbefore (S k')); auto. lia.
    + f_equal. apply IH; auto.
      intros k' b' Hlt Hk'. apply (Hbefore (S k')); auto. lia.
    + f_equal. apply IH; auto.
      intros k' b' Hlt Hk'. apply (Hbefore (S k')); auto. lia.
Qed.

Lemma find_and_click_none (nm inst : string) (c : click) :
  forall (upd : list block),
  (forall b, In b upd -> ~ (name b = nm /\ instance b = inst)) ->
  find_and_click nm inst c upd = upd.
Proof.
  induction upd as [|b0 upd IH]; intros Hno; simpl; auto.
  destruct (String.eqb_spec (name b0) nm), (String.eqb_spec (instance b0) inst);
    simpl.
  - exfalso. apply (Hno b0); [left; reflexivity | split; assumption].
  - rewrite IH; [reflexivity |]. intros b Hb. apply Hno. right. exact Hb.
  - rewrite IH; [reflexivity |]. intros b Hb. apply Hno. right. exact Hb.
  - rewrite IH; [reflexivity |]. intros b Hb. apply Hno. right. exact Hb.
Qed.

Lemma find_and_click_length (nm inst : string) (c : click) (upd : list block) :
  length (find_and_click nm inst c upd) = length upd.
Proof.
  induction upd as [|b0 upd IH]; simpl; auto.
  destruct (_ && _); simpl; auto.
Qed.

Lemma click_block_blocks (nm inst : string) (c : click) (s : status_line) :
  blocks (click_block nm inst c s) = blocks s.
Proof. unfold click_block. destruct (_ || _); reflexivity. Qed.

Lemma click_block_length (nm inst : string) (c : click) (s : status_line) :
  length (updated_blocks (click_block nm inst c s)) = length (updated_blocks s).
Proof.
  unfold click_block. destruct (_ || _); simpl; auto.
  apply find_and_click_length.
Qed.

Lemma handle_click_blocks (jp : list Z -> string -> Z * Z) (cb cx cy : nat)
    (input : list Z) (s : status_line) :
  blocks (handle_click jp cb cx cy input s) = blocks s.
Proof.
  unfold handle_click. destruct (parse_click _ _ _) as [[[? ?] ?] ?].
  apply click_block_blocks.
Qed.

Lemma handle_click_length (jp : list Z -> string -> Z * Z) (cb cx cy : nat)
    (input : list Z) (s : status_line) :
  length (updated_blocks (handle_click jp cb cx cy input s)) =
  length (updated_blocks s).
Proof.
  unfold handle_click. destruct (parse_click _ _ _) as [[[? ?] ?] ?].
  apply click_block_length.
Qed.

(** C6: for a parsed notification [(nm, inst, c)] carrying a name or an
    instance, the first runtime block whose (name, instance) equals it, and
    only it, receives the click payload; when no block matches, or when the
    name and the instance are both empty, no runtime block changes (the
    empty-empty notification is dropped even if a block has an empty name
    and instance). *)
Theorem click_block_first_match (nm inst : string) (c : click) (s : status_line) :
  ((nm <> "" \/ inst <> "") ->
   forall k b, updated_blocks s !! k = Some b -> name b = nm -> instance b = inst ->
   (forall k' b', (k' < k)%nat -> updated_blocks s !! k' = Some b' ->
      ~ (name b' = nm /\ instance b' = inst)) ->
   click_block nm inst c s =
     mk_status_line (blocks s) (<[k := set_click b c]> (updated_blocks s))) /\
  ((forall b, In b (updated_blocks s) -> ~ (name b = nm /\ instance b = inst)) \/
   (nm = "" /\ inst = "") ->
   click_block nm inst c s = s).
Proof.
  split.
  - intros Hne k b Hk Hn Hi Hbefore. unfold click_block.
    assert (Hor : negb (String.eqb nm "") || negb (String.eqb inst "") = true).
    { destruct Hne as [Hne | Hne];
        [rewrite (proj2 (String.eqb_neq _ _) Hne) |
         rewrite (proj2 (String.eqb_neq _ _) Hne), Bool.orb_true_r];
        reflexivity. }
    rewrite Hor. f_equal. apply find_and_click_first; auto.
  - intros [Hno | [-> ->]]; unfold click_block.
    + destruct (_ || _); [| reflexivity].
      rewrite find_and_click_none by exact Hno. destruct s; reflexivity.
    + reflexivity.
Qed.

(** The spec's scenario: the notification for [vol] with an empty instance
    goes to the block [vol]/"", not to [vol]/"master". *)
Lemma click_block_first_match_witness :
  click_block "vol" "" (mk_click [49; 0] [49; 48; 0] [50; 48; 0])
    (mk_status_line []
      [mk_block "vol" "master" "x" 0 0 1 "" (mk_click [0; 0] [0; 0; 0] [0; 0; 0]);
       mk_block "vol" "" "x" 0 0 1 "" (mk_click [0; 0] [0; 0; 0] [0; 0; 0])]) =
  mk_status_line []
    (<[1%nat := set_click
        (mk_block "vol" "" "x" 0 0 1 "" (mk_click [0; 0] [0; 0; 0] [0; 0; 0]))
        (mk_click [49; 0] [49; 48; 0] [50; 48; 0])]>
      [mk_block "vol" "master" "x" 0 0 1 "" (mk_click [0; 0] [0; 0; 0] [0; 0; 0]);
       mk_block "vol" "" "x" 0 0 1 "" (mk_click [0; 0] [0; 0; 0] [0; 0; 0])]).
Proof.
  refine (proj1 (click_block_first_match "vol" ""
    (mk_click [49; 0] [49; 48; 0] [50; 48; 0])
    (mk_status_line []
      [mk_block "vol" "master" "x" 0 0 1 "" (mk_click [0; 0] [0; 0; 0] [0; 0; 0]);
       mk_block "vol" "" "x" 0 0 1 "" (mk_click [0; 0] [0; 0; 0] [0; 0; 0])]))
    (or_introl _) 1%nat
    (mk_block "vol" "" "x" 0 0 1 "" (mk_click [0; 0] [0; 0; 0] [0; 0; 0]))
    eq_refl eq_refl eq_refl _).
  - discriminate.
  - intros k' b' Hlt Hk'. destruct k' as [|k']; [| lia].
    injection Hk' as <-. intros [_ H]. discriminate.
Defined.

(** ** Lemmas on sched_start *)

Lemma sched_cycle_state (jp : list Z -> string -> Z * Z) (cb cx cy : nat)
    (e : cycle_env) (st : sched_state) :
  blocks (status (fst (sched_cycle jp cb cx cy e st))) = blocks (status st) /\
  length (updated_blocks (status (fst (sched_cycle jp cb cx cy e st)))) =
    length (updated_blocks (status st)).
Proof.
  unfold sched_cycle.
  pose proof (update_status_line_blocks (env_clock e) (env_sigs e) (env_block_update e) st) as Hb.
  pose proof (update_status_line_length (env_clock e) (env_sigs e) (env_block_update e) st) as Hl.
  destruct (update_status_line (env_clock e) (env_sigs e) (env_block_update e) st) as [st1 calls].
  simpl in *. destruct (env_wake e) as [|sig input]; simpl; auto.
  destruct (Z.eqb sig SIGIO); simpl; auto.
  rewrite handle_click_blocks, handle_click_length. auto.
Qed.

Lemma sched_cycle_events (jp : list Z -> string -> Z * Z) (cb cx cy : nat)
    (e : cycle_env) (st : sched_state) (ev : event) :
  In ev (snd (sched_cycle jp cb cx cy e st)) ->
  (exists j a, ev = Dispatch j a /\
     In (j, a) (snd (update_status_line (env_clock e) (env_sigs e) (env_block_update e) st))) \/
  ev = Render (status (fst (update_status_line (env_clock e) (env_sigs e)
                             (env_block_update e) st))).
Proof.
  unfold sched_cycle.
  destruct (update_status_line (env_clock e) (env_sigs e) (env_block_update e) st) as [st1 calls].
  simpl. intros Hin. apply in_app_or in Hin as [Hin | [<- | []]]; [left | right; auto].
  apply in_map_iff in Hin as ([j a] & <- & Hin). eauto.
Qed.

Lemma sched_cycle_renders (jp : list Z -> string -> Z * Z) (cb cx cy : nat)
    (e : cycle_env) (st : sched_state) :
  length (List.filter is_render (snd (sched_cycle jp cb cx cy e st))) = 1%nat.
Proof.
  unfold sched_cycle.
  destruct (update_status_line (env_clock e) (env_sigs e) (env_block_update e) st) as [st1 calls].
  simpl. rewrite List.filter_app. simpl. rewrite List.length_app. simpl.
  assert (H : List.filter is_render (map (fun '(i, a) => Dispatch i a) calls) = []).
  { induction calls as [|[i a] calls IH]; simpl; auto. }
  rewrite H. reflexivity.
Qed.

Lemma sched_run_blocks (jp : list Z -> string -> Z * Z) (cb cx cy : nat) :
  forall (envs : list cycle_env) (st : sched_state),
  blocks (status (fst (sched_run jp cb cx cy envs st))) = blocks (status st).
Proof.
  induction envs as [|e envs IH]; intros st; simpl; auto.
  pose proof (sched_cycle_state jp cb cx cy e st) as [Hb _].
  destruct (sched_cycle jp cb cx cy e st) as [st1 evs1].
  pose proof (IH st1) as H.
  destruct (sched_run jp cb cx cy envs st1) as [st2 evs2]. simpl in *.
  congruence.
Qed.

(** C7: over any number of iterations of the loop, with any environment
    (clock, results of [block_update], signals and clicks), a block whose
    configured command is empty is never passed to [block_update], while
    every iteration renders once and every render gets a status line that
    holds that block. *)
Theorem sched_run_static_block (jp : list Z -> string -> Z * Z) (cb cx cy : nat) :
  forall (envs : list cycle_env) (st : sched_state) (j : nat) (cfg : block),
  blocks (status st) !! j = Some cfg -> command cfg = "" ->
  (j < length (updated_blocks (status st)))%nat ->
  let evs := snd (sched_run jp cb cx cy envs st) in
  (forall a, ~ In (Dispatch j a) evs) /\
  (forall s', In (Render s') evs ->
     blocks s' !! j = Some cfg /\ (j < length (updated_blocks s'))%nat) /\
  length (List.filter is_render evs) = length envs.
Proof.
  induction envs as [|e envs IH]; intros st j cfg Hcfg Hcmd Hlen; simpl.
  - split; [tauto | split; [tauto | reflexivity]].
  - pose proof (sched_cycle_state jp cb cx cy e st) as [Hb Hl].
    pose proof (sched_cycle_events jp cb cx cy e st) as Hev.
    pose proof (sched_cycle_renders jp cb cx cy e st) as Hr.
    destruct (sched_cycle jp cb cx cy e st) as [st1 evs1] eqn:Ec. simpl in *.
    rewrite <- Hb in Hcfg. rewrite <- Hl in Hlen.
    destruct (IH st1 j cfg Hcfg Hcmd Hlen) as (IH1 & IH2 & IH3).
    destruct (sched_run jp cb cx cy envs st1) as [st2 evs2]. simpl in *.
    rewrite Hb in Hcfg. rewrite Hl in Hlen.
    split; [| split].
    + intros a Hin. apply in_app_or in Hin as [Hin | Hin]; [| exact (IH1 a Hin)].
      destruct (Hev _ Hin) as [(j' & a' & [= <- <-] & Hc) | Hc]; [| discriminate].
      apply update_status_line_calls in Hc as (cfg' & u & b' & Hcfg' & _ & Hub).
      rewrite Hcfg in Hcfg'. injection Hcfg' as <-.
      apply update_block_some in Hub as (Hne & _). contradiction.
    + intros s' Hin. apply in_app_or in Hin as [Hin | Hin]; [| exact (IH2 s' Hin)].
      destruct (Hev _ Hin) as [(j' & a' & ? & _) | Hc]; [discriminate |].
      injection Hc as ->.
      rewrite update_status_line_blocks, update_status_line_length. auto.
    + rewrite List.filter_app, List.length_app, Hr, IH3. reflexivity.
Qed.

Lemma sched_run_static_block_witness :
  length (List.filter is_render
    (snd (sched_run (fun _ _ => (0, 0)) 2 5 5
      [mk_cycle_env (fun _ => 0) (fun _ => None) (fun b => b) Timeout;
       mk_cycle_env (fun _ => 5) (fun _ => None) (fun b => b) (Interrupted 10 [])]
      (mk_sched_state
        (mk_status_line [mk_block "date" "" "" 0 0 0 "" (mk_click [0; 0] [0] [0])]
                        [mk_block "date" "" "" 0 0 0 "" (mk_click [0; 0] [0] [0])])
        0)))) = 2%nat.
Proof.
  apply (sched_run_static_block (fun _ _ => (0, 0)) 2 5 5
      [mk_cycle_env (fun _ => 0) (fun _ => None) (fun b => b) Timeout;
       mk_cycle_env (fun _ => 5) (fun _ => None) (fun b => b) (Interrupted 10 [])]
      (mk_sched_state
        (mk_status_line [mk_block "date" "" "" 0 0 0 "" (mk_click [0; 0] [0] [0])]
                        [mk_block "date" "" "" 0 0 0 "" (mk_click [0; 0] [0] [0])])
        0) 0 (mk_block "date" "" "" 0 0 0 "" (mk_click [0; 0] [0] [0])));
    [reflexivity | reflexivity | simpl; lia].
Defined.

(** C10: the per-cycle operations never write the config array: the pass,
    the click correlation (with or without its parsing) and any number of
    iterations of the loop leave [status->blocks] as it was
    ([longest_sleep] only reads the status line). *)
Theorem scheduler_preserves_config :
  (forall clock sigs bu st,
     blocks (status (fst (update_status_line clock sigs bu st))) = blocks (status st)) /\
  (forall nm inst c s, blocks (click_block nm inst c s) = blocks s) /\
  (forall jp cb cx cy input s, blocks (handle_click jp cb cx cy input s) = blocks s) /\
  (forall jp cb cx cy envs st,
     blocks (status (fst (sched_run jp cb cx cy envs st))) = blocks (status st)).
Proof.
  split; [| split; [| split]].
  - apply update_status_line_blocks.
  - apply click_block_blocks.
  - apply handle_click_blocks.
  - intros jp cb cx cy. apply sched_run_blocks.
Qed.

(** ** Lemmas on parse_click *)

Lemma copy_len_bounds (len : Z) (cap : nat) :
  0 < Z.of_nat cap < 2 ^ 64 ->
  0 <= copy_len len (replicate cap 0) <= Z.of_nat cap - 1 /\
  (0 <= len < 2 ^ 64 -> copy_len len (replicate cap 0) = Z.min len (Z.of_nat cap - 1)).
Proof.
  intros Hc. unfold copy_len, ulong. rewrite length_replicate.
  rewrite (Z.mod_small (Z.of_nat cap - 1)) by lia.
  assert (0 <= len mod 2 ^ 64 < 2 ^ 64) by (apply Z.mod_pos_bound; lia).
  split.
  - destruct (Z.ltb_spec (len mod 2 ^ 64) (Z.of_nat cap - 1)); lia.
  - intros Hl. rewrite Z.mod_small by lia.
    destruct (Z.ltb_spec len (Z.of_nat cap - 1)); lia.
Qed.

Lemma memcpy_zeroed_field (src : list Z) (st len : Z) (cap : nat) :
  0 < Z.of_nat cap < 2 ^ 64 ->
  field_copied (memcpy_at (replicate cap 0) src st (copy_len len (replicate cap 0)))
    src st len cap.
Proof.
  intros Hc.
  destruct (copy_len_bounds len cap Hc) as [Hk Hmin].
  set (k := copy_len len (replicate cap 0)) in *.
  assert (Hlook : forall j, (j < cap)%nat ->
    memcpy_at (replicate cap 0) src st k !! j =
      Some (if Z.ltb (Z.of_nat j) k then read_byte src (st + Z.of_nat j) else 0)).
  { intros j Hj. unfold memcpy_at. rewrite list_lookup_imap.
    rewrite lookup_replicate_2 by lia. reflexivity. }
  split; [unfold memcpy_at; rewrite length_imap, length_replicate; reflexivity |].
  exists k. split; [exact Hk | split; [exact Hmin | split; [| split]]].
  - intros j Hj. rewrite Hlook by lia.
    destruct (Z.ltb_spec (Z.of_nat j) k); [reflexivity | lia].
  - intros j Hj Hjc. rewrite Hlook by lia.
    destruct (Z.ltb_spec (Z.of_nat j) k); [lia | reflexivity].
  - rewrite Hlook by lia.
    destruct (Z.ltb_spec (Z.of_nat (cap - 1)) k); [lia | reflexivity].
Qed.

(** C9: whatever stdin delivers (the buffer [fread] fills, at most 1023
    bytes, the rest zero) and whatever spans [json_parse] reports, parsing
    a click into the zero-initialised [struct click] of [handle_click]
    writes at most [capacity - 1] bytes of each of [button], [x] and [y]:
    the source bytes, cut at [capacity - 1] for a longer field; the arrays
    keep their capacity and end in a NUL. [parse_click] returns no error
    (its result type has none). *)
Theorem parse_click_fields_bounded (jp : list Z -> string -> Z * Z)
    (cb cx cy : nat) (input : list Z) :
  0 < Z.of_nat cb < 2 ^ 64 -> 0 < Z.of_nat cx < 2 ^ 64 -> 0 < Z.of_nat cy < 2 ^ 64 ->
  let json := read_json input in
  let '(json2, _, _, c) := parse_click jp json (empty_click cb cx cy) in
  field_copied (button c) json2 (fst (jp json "button")) (snd (jp json "button")) cb /\
  field_copied (click_x c) json2 (fst (jp json "x")) (snd (jp json "x")) cx /\
  field_copied (click_y c) json2 (fst (jp json "y")) (snd (jp json "y")) cy.
Proof.
  intros Hb Hx Hy json. unfold parse_click.
  destruct (jp json "y") as [yst ylen].
  destruct (jp json "x") as [xst xlen].
  destruct (jp json "button") as [bst blen].
  destruct (jp json "instance") as [ist ilen].
  destruct (jp json "name") as [nst nlen]. simpl.
  split; [| split]; apply memcpy_zeroed_field; assumption.
Qed.

Example parse_sample_click :
  let '(_, nm, inst, c) :=
    parse_click sample_json_parse (read_json sample_click) (empty_click 2 5 5) in
  (nm, inst, c) = ("vol", "", mk_click [49; 0] [49; 48; 0; 0; 0] [50; 48; 0; 0; 0]).
Proof. vm_compute. reflexivity. Qed.

(** With room for one character, "10" is cut to "1". *)
Example parse_sample_click_truncated :
  let '(_, _, _, c) :=
    parse_click sample_json_parse (read_json sample_click) (empty_click 2 2 2) in
  c = mk_click [49; 0] [49; 0] [50; 0].
Proof. vm_compute. reflexivity. Qed.

Example handle_sample_click :
  handle_click sample_json_parse 2 5 5 sample_click
    (mk_status_line []
      [mk_block "vol" "master" "x" 0 0 1 "" (empty_click 2 5 5);
       mk_block "vol" "" "x" 0 0 1 "" (empty_click 2 5 5)]) =
  mk_status_line []
    [mk_block "vol" "master" "x" 0 0 1 "" (empty_click 2 5 5);
     mk_block "vol" "" "x" 0 0 1 "" (mk_click [49; 0] [49; 48; 0; 0; 0] [50; 48; 0; 0; 0])].
Proof. vm_compute. reflexivity. Qed.

Lemma parse_click_fields_bounded_witness :
  let json := read_json sample_click in
  let '(json2, _, _, c) := parse_click sample_json_parse json (empty_click 2 5 5) in
  field_copied (button c) json2 39 1 2 /\
  field_copied (click_x c) json2 47 2 5 /\
  field_copied (click_y c) json2 56 2 5.
Proof.
  apply (parse_click_fields_bounded sample_json_parse 2 5 5 sample_click);
    simpl; lia.
Defined.

Example sched_init_tty :
  sched_init (fun c => match c with Isatty _ => 1 | _ => 0 end) =
  (0, [Sigaction SIGUSR1 SA_RESTART; Sigaction SIGUSR2 SA_RESTART; Isatty 0]).
Proof. reflexivity. Qed.

(** ** Lemmas on sched_init *)

Ltac unfold_io :=
  unfold sched_init, sched_event_stdin, sched_use_signal, call, mbind, io_bind,
    mret, io_ret; cbn -[Z.lor].

Ltac split_results :=
  repeat match goal with
  | |- context [Z.eqb ?a ?b] => destruct (Z.eqb_spec a b); cbn -[Z.lor]
  end.

(** X1: [sched_init] returns 0 or 1, and 0 exactly when both user signals'
    handlers are installed and either stdin is a terminal or the SIGIO
    handler, the owner and the flags of stdin are all set. *)
Theorem sched_init_result (os : syscall -> Z) :
  (fst (sched_init os) = 0 \/ fst (sched_init os) = 1) /\
  (fst (sched_init os) = 0 <->
   os (Sigaction SIGUSR1 SA_RESTART) <> -1 /\
   os (Sigaction SIGUSR2 SA_RESTART) <> -1 /\
   (os (Isatty STDIN_FILENO) <> 0 \/
    (os (Sigaction SIGIO SA_RESTART) <> -1 /\
     os (Fcntl STDIN_FILENO F_SETOWN (os Getpid)) <> -1 /\
     os (Fcntl STDIN_FILENO F_SETFL
           (Z.lor (os (Fcntl STDIN_FILENO F_GETFL 0)) (Z.lor O_ASYNC O_NONBLOCK)))
       <> -1))).
Proof.
  unfold_io. split_results; split; try (left; reflexivity); try (right; reflexivity);
    split; intros; try tauto; try discriminate; try lia.
Qed.

Lemma setfl_flags_bits (flags : Z) :
  (forall n, Z.testbit flags n = true ->
     Z.testbit (Z.lor flags (Z.lor O_ASYNC O_NONBLOCK)) n = true) /\
  Z.testbit (Z.lor flags (Z.lor O_ASYNC O_NONBLOCK)) 11 = true /\
  Z.testbit (Z.lor flags (Z.lor O_ASYNC O_NONBLOCK)) 13 = true.
Proof.
  split; [| split].
  - intros n Hn. rewrite Z.lor_spec, Hn. reflexivity.
  - rewrite !Z.lor_spec, Bool.orb_true_iff. right. reflexivity.
  - rewrite !Z.lor_spec, Bool.orb_true_iff. right. reflexivity.
Qed.

(** X2: the setup stops at the first failing call: when [sched_init]
    returns 1 the last call it made is a checked one that returned -1 and
    every checked call before it succeeded; when it returns 0 every checked
    call it made succeeded. *)
Theorem sched_init_stops_at_failure (os : syscall -> Z) :
  (fst (sched_init os) = 1 ->
   snd (sched_init os) <> [] /\
   checked (List.last (snd (sched_init os)) Getpid) = true /\
   os (List.last (snd (sched_init os)) Getpid) = -1 /\
   Forall (fun c => checked c = true -> os c <> -1)
     (removelast (snd (sched_init os)))) /\
  (fst (sched_init os) = 0 ->
   Forall (fun c => checked c = true -> os c <> -1) (snd (sched_init os))).
Proof.
  unfold_io. split_results; split; intros H; try discriminate.
  all: repeat split; try discriminate; try assumption.
  all: apply List.Forall_forall; intros c Hc Hck;
    repeat (destruct Hc as [<- | Hc];
            [first [assumption | vm_compute in Hck; discriminate] |]);
    contradiction.
Qed.

Lemma sched_init_stops_at_failure_witness :
  fst (sched_init os_fail_usr2) = 1 /\
  os_fail_usr2 (List.last (snd (sched_init os_fail_usr2)) Getpid) = -1.
Proof.
  split; [reflexivity |].
  apply (proj1 (sched_init_stops_at_failure os_fail_usr2) eq_refl).
Defined.

(** X3: what the setup asks of the system: every handler it installs is
    [handler] for SIGUSR1, SIGUSR2 or SIGIO with [SA_RESTART]; when stdin
    is a terminal it installs no SIGIO handler and makes no [fcntl] call;
    the flags it sets on stdin keep every flag stdin had and add
    [O_ASYNC] and [O_NONBLOCK]. *)
Theorem sched_init_calls (os : syscall -> Z) :
  (forall sig flags, In (Sigaction sig flags) (snd (sched_init os)) ->
     flags = SA_RESTART /\ (sig = SIGUSR1 \/ sig = SIGUSR2 \/ sig = SIGIO)) /\
  (os (Isatty STDIN_FILENO) <> 0 ->
     incl (snd (sched_init os))
       [Sigaction SIGUSR1 SA_RESTART; Sigaction SIGUSR2 SA_RESTART;
        Isatty STDIN_FILENO]) /\
  (forall fd arg, In (Fcntl fd F_SETFL arg) (snd (sched_init os)) ->
     fd = STDIN_FILENO /\
     (forall n, Z.testbit (os (Fcntl STDIN_FILENO F_GETFL 0)) n = true ->
        Z.testbit arg n = true) /\
     Z.testbit arg 11 = true /\ Z.testbit arg 13 = true).
Proof.
  pose proof (setfl_flags_bits (os (Fcntl STDIN_FILENO F_GETFL 0))) as Hbits.
  unfold_io. split_results; (split; [| split]).
  all: try (intros Htty; congruence).
  all: try (intros Htty c Hc; simpl in Hc; simpl; tauto).
  all: intros x y Hin; simpl in Hin;
    repeat destruct Hin as [Hin | Hin]; try contradiction; try discriminate Hin.
  all: try (injection Hin as <- <-; split; [reflexivity | tauto]).
  all: injection Hin as <- Hcmd <-;
    first [vm_compute in Hcmd; discriminate Hcmd
          | split; [reflexivity | exact Hbits]].
Qed.

Lemma sched_init_calls_witness :
  incl (snd (sched_init (fun c => match c with Isatty _ => 1 | _ => 0 end)))
    [Sigaction SIGUSR1 SA_RESTART; Sigaction SIGUSR2 SA_RESTART; Isatty STDIN_FILENO].
Proof.
  apply (proj1 (proj2 (sched_init_calls
    (fun c => match c with Isatty _ => 1 | _ => 0 end)))).
  discriminate.
Defined.

(** ** More on longest_sleep and need_update *)

(** X4: the nested [gcd] (Euclid's loop with its XOR swap) computes the
    greatest common divisor of two non-negative [int]s; in particular
    [gcd(a, 0) = a] and [gcd(0, b) = b]. *)
Theorem nested_gcd_correct (a b : Z) :
  0 <= a -> 0 <= b ->
  gcd a b = Z.gcd a b /\ gcd a 0 = a /\ gcd 0 b = b.
Proof.
  intros Ha Hb. split; [apply gcd_spec; lia |].
  rewrite (gcd_spec a 0), (gcd_spec 0 b) by lia.
  split; [rewrite Z.gcd_0_r | rewrite Z.gcd_0_l]; apply Z.abs_eq; lia.
Qed.

Lemma nested_gcd_correct_witness : gcd 12 18 = Z.gcd 12 18.
Proof. apply (nested_gcd_correct 12 18); lia. Defined.

Lemma fold_gcd_perm (l l' : list Z) :
  Permutation l l' -> forall t, fold_left Z.gcd l t = fold_left Z.gcd l' t.
Proof.
  induction 1 as [| x l l' _ IH | x y l | l l' l'' _ IH1 _ IH2]; intros t; simpl.
  - reflexivity.
  - apply IH.
  - f_equal. rewrite <- !Z.gcd_assoc, (Z.gcd_comm x y). reflexivity.
  - rewrite IH1. apply IH2.
Qed.

(** X5: the planned sleep does not depend on the order of the blocks in the
    configuration. *)
Theorem longest_sleep_perm (s s' : status_line) :
  Forall (fun b => 0 <= interval b <= INT_MAX) (blocks s) ->
  Permutation (blocks s) (blocks s') ->
  longest_sleep s = longest_sleep s'.
Proof.
  intros Hall Hp.
  assert (Hall' : Forall (fun b => 0 <= interval b <= INT_MAX) (blocks s')).
  { rewrite List.Forall_forall in *. intros b Hb.
    apply Hall. apply Permutation_in with (blocks s'); [symmetry |]; assumption. }
  rewrite (longest_sleep_fold s Hall), (longest_sleep_fold s' Hall').
  rewrite (fold_gcd_perm _ _ (Permutation_map interval Hp)). reflexivity.
Qed.

Lemma longest_sleep_perm_witness :
  longest_sleep (mk_status_line
    [mk_block "a" "" "x" 4 0 0 "" (mk_click [] [] []);
     mk_block "b" "" "x" 6 0 0 "" (mk_click [] [] [])] []) =
  longest_sleep (mk_status_line
    [mk_block "b" "" "x" 6 0 0 "" (mk_click [] [] []);
     mk_block "a" "" "x" 4 0 0 "" (mk_click [] [] [])] []).
Proof.
  apply longest_sleep_perm.
  - repeat constructor; unfold INT_MAX; simpl; lia.
  - apply perm_swap.
Defined.

Lemma map_interval_filter (l : list block) :
  map interval (List.filter (fun b => negb (Z.eqb (interval b) 0)) l) =
  List.filter (fun x => negb (Z.eqb x 0)) (map interval l).
Proof.
  induction l as [|b l IH]; simpl; auto.
  destruct (Z.eqb (interval b) 0); simpl; rewrite IH; reflexivity.
Qed.

(** X6: blocks with interval 0 (never time-triggered, e.g. signal-only or
    static blocks) have no effect on the planned sleep. *)
Theorem longest_sleep_ignores_zero_intervals (s : status_line) :
  Forall (fun b => 0 <= interval b <= INT_MAX) (blocks s) ->
  longest_sleep
    (mk_status_line (List.filter (fun b => negb (Z.eqb (interval b) 0)) (blocks s))
       (updated_blocks s)) =
  longest_sleep s.
Proof.
  intros Hall.
  assert (Hf : Forall (fun b => 0 <= interval b <= INT_MAX)
                 (List.filter (fun b => negb (Z.eqb (interval b) 0)) (blocks s))).
  { rewrite List.Forall_forall in *. intros b Hb.
    apply filter_In in Hb as [Hb _]. auto. }
  rewrite (longest_sleep_fold (mk_status_line _ (updated_blocks s)) Hf),
    (longest_sleep_fold s Hall). simpl.
  rewrite map_interval_filter, <- fold_gcd_filter by lia. reflexivity.
Qed.

Lemma longest_sleep_ignores_zero_intervals_witness :
  longest_sleep (mk_status_line
    [mk_block "a" "" "x" 4 0 0 "" (mk_click [] [] [])] []) =
  longest_sleep (mk_status_line
    [mk_block "c" "" "" 0 10 0 "" (mk_click [] [] []);
     mk_block "a" "" "x" 4 0 0 "" (mk_click [] [] [])] []).
Proof.
  apply (longest_sleep_ignores_zero_intervals (mk_status_line
    [mk_block "c" "" "" 0 10 0 "" (mk_click [] [] []);
     mk_block "a" "" "x" 4 0 0 "" (mk_click [] [] [])] [])).
  repeat constructor; unfold INT_MAX; simpl; lia.
Defined.

(** X7: for timestamps below [2^63] whose sum does not wrap, a block with an
    interval that has run before and sees no signal for it and no click is
    refreshed exactly when [now >= last_update + interval]. *)
Theorem need_update_plain_time (cs now : Z) (b : block) :
  0 < last_update b -> 0 < interval b -> last_update b + interval b < 2 ^ 63 ->
  0 <= now < 2 ^ 63 ->
  (cs = 0 \/ (cs <> signal b /\ button_set (bclick b) = false)) ->
  need_update cs now b = Z.leb (last_update b + interval b) now.
Proof.
  intros Hl Hi Hsum Hnow Hcs.
  rewrite (need_update_no_wake cs now b) by (auto; lia).
  apply Bool.eq_true_iff_eq. rewrite Z.leb_le, Z.leb_le.
  unfold to_long, ulong. Z.to_euclidean_division_equations. lia.
Qed.

Lemma need_update_plain_time_witness :
  need_update 0 1000 (mk_block "t" "" "cmd" 5 0 995 "" (mk_click [0] [0] [0])) =
  Z.leb (995 + 5) 1000.
Proof. apply need_update_plain_time; simpl; lia || (left; reflexivity). Defined.

(** X8: a block without interval that has run before is refreshed only on
    a wake: exactly when [caughtsig] is nonzero and either equals the
    block's signal or the block holds a click. *)
Theorem need_update_no_interval (cs now : Z) (b : block) :
  interval b = 0 -> last_update b <> 0 ->
  need_update cs now b = true <->
  cs <> 0 /\ (cs = signal b \/ button_set (bclick b) = true).
Proof.
  intros Hi Hl. unfold need_update. rewrite Hi.
  rewrite (proj2 (Z.eqb_neq _ _) Hl). simpl.
  destruct (Z.eqb_spec cs 0) as [->|Hcs]; simpl.
  - split; [discriminate | intros [H _]; congruence].
  - rewrite Bool.orb_true_iff, Z.eqb_eq. tauto.
Qed.

Lemma need_update_no_interval_witness :
  need_update SIGUSR1 7 (mk_block "t" "" "cmd" 0 SIGUSR1 3 "" (mk_click [0] [0] [0])) = true.
Proof.
  apply (need_update_no_interval SIGUSR1 7
    (mk_block "t" "" "cmd" 0 SIGUSR1 3 "" (mk_click [0] [0] [0]))); simpl.
  - reflexivity.
  - lia.
  - split; [unfold SIGUSR1; lia | left; reflexivity].
Defined.

(** ** More on update_status_line *)

Lemma update_loop_sorted (clock : nat -> Z) (sigs : nat -> option Z)
    (bu : block -> block) :
  forall (cfgs : list block) (cs : Z) (i : nat) (upd : list block),
  StronglySorted idx_lt (snd (fst (update_loop cs clock sigs bu i cfgs upd))).
Proof.
  induction cfgs as [|c cfgs IH]; intros cs i upd; simpl; [constructor |].
  destruct (loop_body (deliver cs (sigs i)) (clock i) bu i c upd) as [upd1 call] eqn:Hl.
  pose proof (IH (deliver cs (sigs i)) (S i) upd1) as Hs.
  pose proof (update_loop_calls clock sigs bu cfgs (deliver cs (sigs i)) (S i) upd1) as Hc.
  destruct (update_loop (deliver cs (sigs i)) clock sigs bu (S i) cfgs upd1)
    as [[upd2 calls] cs2] eqn:E.
  simpl in *. destruct call as [a|]; [| exact Hs].
  constructor; [exact Hs |]. apply List.Forall_forall. intros [j b] Hin.
  apply Hc in Hin as [Hle _]. unfold idx_lt. simpl. lia.
Qed.

Lemma update_status_line_sorted (clock : nat -> Z) (sigs : nat -> option Z)
    (bu : block -> block) (st : sched_state) :
  StronglySorted idx_lt (snd (update_status_line clock sigs bu st)).
Proof.
  unfold update_status_line.
  pose proof (update_loop_sorted clock sigs bu (blocks (status st)) (caughtsig st) 0
                (updated_blocks (status st))) as H.
  destruct (update_loop _ _ _ _ _ _ _) as [[upd' calls] cs]. exact H.
Qed.

Lemma sorted_filter_index (l : list (nat * block)) (j : nat) :
  StronglySorted idx_lt l ->
  (length (List.filter (fun p => Nat.eqb (fst p) j) l) <= 1)%nat.
Proof.
  induction 1 as [|x l Hs IH Hall]; simpl; [lia |].
  destruct (Nat.eqb_spec (fst x) j) as [<-|Hne]; simpl; [| exact IH].
  assert (H : List.filter (fun p => Nat.eqb (fst p) (fst x)) l = []).
  { clear Hs IH. induction Hall as [|y l Hy Hall' IHa]; simpl; auto.
    unfold idx_lt in Hy. destruct (Nat.eqb_spec (fst y) (fst x)); [lia |].
    exact IHa. }
  rewrite H. simpl. lia.
Qed.

(** X9: whatever signals it catches, the pass calls [block_update] in
    increasing block order, at most once per block, and only for indices
    that exist in both arrays. *)
Theorem update_status_line_calls_ordered (clock : nat -> Z) (sigs : nat -> option Z)
    (bu : block -> block)
    (st : sched_state) :
  let calls := snd (update_status_line clock sigs bu st) in
  StronglySorted (fun p q => (fst p < fst q)%nat) calls /\
  Forall (fun p => (fst p < length (blocks (status st)))%nat /\
                   (fst p < length (updated_blocks (status st)))%nat) calls.
Proof.
  simpl. split.
  - apply update_status_line_sorted.
  - apply List.Forall_forall. intros [j a] Hin.
    apply update_status_line_calls in Hin as (cfg & u & b' & Hc & Hu & _).
    simpl. split; apply lookup_lt_is_Some; eauto.
Qed.

(** X10: for a block [j] present in both arrays, the pass dispatches it
    exactly once, with its config and its pending click, when it has a
    command and [need_update] holds for it, reading [caughtsig] as it is
    when block [j] is checked (signals caught earlier in the pass
    included), and never otherwise. *)
Theorem update_status_line_dispatch_once (clock : nat -> Z) (sigs : nat -> option Z)
    (bu : block -> block)
    (st : sched_state) (j : nat) (cfg u : block) :
  blocks (status st) !! j = Some cfg ->
  updated_blocks (status st) !! j = Some u ->
  List.filter (fun p => Nat.eqb (fst p) j) (snd (update_status_line clock sigs bu st)) =
    if negb (String.eqb (command cfg) "") && need_update (seen (caughtsig st) sigs 0 j) (clock j) u
    then [(j, set_click cfg (bclick u))] else [].
Proof.
  intros Hc Hu.
  assert (Hs : StronglySorted idx_lt (snd (update_status_line clock sigs bu st))).
  { apply update_status_line_sorted. }
  pose proof (sorted_filter_index _ j Hs) as Hlen.
  assert (Hmem : forall p, In p (List.filter (fun p => Nat.eqb (fst p) j)
                                 (snd (update_status_line clock sigs bu st))) <->
            p = (j, set_click cfg (bclick u)) /\
            negb (String.eqb (command cfg) "") &&
              need_update (seen (caughtsig st) sigs 0 j) (clock j) u
              = true).
  { intros [k a]. rewrite filter_In, update_status_line_calls. simpl.
    split.
    - intros ((cfg' & u' & b' & Hc' & Hu' & Hub) & Hk).
      apply Nat.eqb_eq in Hk. subst k. rewrite Hc in Hc'. rewrite Hu in Hu'.
      injection Hc' as <-. injection Hu' as <-.
      apply update_block_some in Hub as (Hne & Hn & -> & _).
      split; [reflexivity |].
      rewrite Hn. destruct (String.eqb_spec (command cfg) ""); [contradiction | reflexivity].
    - intros [[= -> ->] Hb]. rewrite Nat.eqb_refl. split; [| reflexivity].
      apply andb_prop in Hb as [Hne Hn].
      destruct (String.eqb_spec (command cfg) "") as [|Hne']; [discriminate |].
      exists cfg, u, (set_click (bu (set_click cfg (bclick u)))
                        (zero_click (bclick (bu (set_click cfg (bclick u)))))).
      split; [exact Hc | split; [exact Hu |]].
      apply update_block_some. auto. }
  destruct (List.filter _ _) as [|q [|q' l]] eqn:Ef; simpl in Hlen; [| | lia].
  - destruct (_ && _) eqn:Eb; [| reflexivity].
    exfalso. apply (proj2 (Hmem (j, set_click cfg (bclick u)))). auto.
  - destruct (proj1 (Hmem q) (or_introl eq_refl)) as [-> ->]. reflexivity.
Qed.

Lemma update_status_line_dispatch_once_witness :
  List.filter (fun p => Nat.eqb (fst p) 0)
    (snd (update_status_line (fun _ => 100)
      (fun i => if Nat.eqb i 0 then Some SIGUSR1 else None) (fun b => b)
      (mk_sched_state
        (mk_status_line [mk_block "v" "" "vol" 0 SIGUSR1 0 "" (mk_click [0] [0] [0])]
                        [mk_block "v" "" "vol" 0 SIGUSR1 7 "" (mk_click [0] [0] [0])])
        0))) =
  [(0%nat, mk_block "v" "" "vol" 0 SIGUSR1 0 "" (mk_click [0] [0] [0]))].
Proof.
  apply (update_status_line_dispatch_once (fun _ => 100)
      (fun i => if Nat.eqb i 0 then Some SIGUSR1 else None) (fun b => b)
      (mk_sched_state
        (mk_status_line [mk_block "v" "" "vol" 0 SIGUSR1 0 "" (mk_click [0] [0] [0])]
                        [mk_block "v" "" "vol" 0 SIGUSR1 7 "" (mk_click [0] [0] [0])])
        0) 0 (mk_block "v" "" "vol" 0 SIGUSR1 0 "" (mk_click [0] [0] [0]))
      (mk_block "v" "" "vol" 0 SIGUSR1 7 "" (mk_click [0] [0] [0]))); reflexivity.
Defined.

Lemma sorted_lt_ext (l1 l2 : list nat) :
  StronglySorted lt l1 -> StronglySorted lt l2 ->
  (forall x, In x l1 <-> In x l2) -> l1 = l2.
Proof.
  intros H1. revert l2. induction H1 as [|a l1 Hs1 IH Hall1]; intros l2 H2 Hm.
  - destruct l2 as [|b l2]; auto. exfalso. apply (proj2 (Hm b)). left. auto.
  - destruct H2 as [|b l2 Hs2 Hall2].
    + exfalso. apply (proj1 (Hm a)). left. auto.
    + rewrite List.Forall_forall in Hall1, Hall2.
      assert (a = b) as <-.
      { destruct (proj1 (Hm a) (or_introl eq_refl)) as [|Ha]; auto.
        destruct (proj2 (Hm b) (or_introl eq_refl)) as [|Hb]; auto.
        specialize (Hall1 b Hb). specialize (Hall2 a Ha). lia. }
      f_equal. apply IH; auto. intros x. split; intros Hx.
      * destruct (proj1 (Hm x) (or_intror Hx)) as [<-|]; auto.
        specialize (Hall1 a Hx). lia.
      * destruct (proj2 (Hm x) (or_intror Hx)) as [<-|]; auto.
        specialize (Hall2 a Hx). lia.
Qed.

Lemma sorted_map_fst (l : list (nat * block)) :
  StronglySorted idx_lt l -> StronglySorted lt (map fst l).
Proof.
  induction 1 as [|x l Hs IH Hall]; simpl; constructor; auto.
  apply List.Forall_map. exact Hall.
Qed.

Lemma sorted_filter_seq (f : nat -> bool) (n : nat) :
  forall a, StronglySorted lt (List.filter f (seq a n)).
Proof.
  induction n as [|n IH]; intros a; simpl; [constructor |].
  destruct (f a); [| apply IH]. constructor; [apply IH |].
  apply List.Forall_forall. intros x Hx. apply filter_In in Hx as [Hx _].
  apply in_seq in Hx. lia.
Qed.

(** X11: on the first pass (no runtime block has run yet, and the two arrays
    have the same length), [block_update] is called for exactly the blocks
    that have a command, each once, in index order, whatever the clock,
    [caughtsig] and the signals caught during the pass. *)
Theorem update_status_line_first_pass (clock : nat -> Z) (sigs : nat -> option Z)
    (bu : block -> block)
    (st : sched_state) :
  length (updated_blocks (status st)) = length (blocks (status st)) ->
  Forall (fun u => last_update u = 0) (updated_blocks (status st)) ->
  map fst (snd (update_status_line clock sigs bu st)) =
    List.filter (non_static_at (status st)) (seq 0 (length (blocks (status st)))).
Proof.
  intros Hlen Hfirst. apply sorted_lt_ext.
  - apply sorted_map_fst. apply update_status_line_sorted.
  - apply sorted_filter_seq.
  - intros j. rewrite in_map_iff, filter_In, in_seq. unfold non_static_at. split.
    + intros ([j' a] & <- & Hin). simpl.
      apply update_status_line_calls in Hin as (cfg & u & b' & Hc & Hu & Hub).
      apply update_block_some in Hub as (Hne & _).
      rewrite Hc. split; [split; [lia | apply lookup_lt_is_Some; eauto] |].
      destruct (String.eqb_spec (command cfg) ""); [contradiction | reflexivity].
    + intros [[_ Hj] Hns].
      destruct (blocks (status st) !! j) as [cfg|] eqn:Hc; [| discriminate].
      destruct (updated_blocks (status st) !! j) as [u|] eqn:Hu.
      2: { apply lookup_ge_None in Hu. lia. }
      exists (j, set_click cfg (bclick u)). split; [reflexivity |].
      apply update_status_line_calls.
      eexists cfg, u, _. split; [exact Hc | split; [exact Hu |]].
      apply update_block_some. split; [| split; [| split; reflexivity]].
      * destruct (String.eqb_spec (command cfg) ""); [discriminate | assumption].
      * rewrite Forall_lookup in Hfirst.
        assert (Hl0 : last_update u = 0) by exact (Hfirst j u Hu).
        unfold need_update. rewrite Hl0.
        destruct (negb (seen (caughtsig st) sigs 0 j =? 0)); reflexivity.
Qed.

Lemma update_status_line_first_pass_witness :
  map fst (snd (update_status_line (fun _ => 0) (fun _ => None) (fun b => b)
    (mk_sched_state
      (mk_status_line
        [mk_block "a" "" "date" 5 0 0 "" (mk_click [0] [0] [0]);
         mk_block "s" "" "" 0 0 0 "" (mk_click [0] [0] [0]);
         mk_block "b" "" "uptime" 0 10 0 "" (mk_click [0] [0] [0])]
        [mk_block "a" "" "date" 5 0 0 "" (mk_click [0] [0] [0]);
         mk_block "s" "" "" 0 0 0 "" (mk_click [0] [0] [0]);
         mk_block "b" "" "uptime" 0 10 0 "" (mk_click [0] [0] [0])])
      0))) = [0%nat; 2%nat].
Proof.
  rewrite (update_status_line_first_pass (fun _ => 0) (fun _ => None) (fun b => b)
    (mk_sched_state
      (mk_status_line
        [mk_block "a" "" "date" 5 0 0 "" (mk_click [0] [0] [0]);
         mk_block "s" "" "" 0 0 0 "" (mk_click [0] [0] [0]);
         mk_block "b" "" "uptime" 0 10 0 "" (mk_click [0] [0] [0])]
        [mk_block "a" "" "date" 5 0 0 "" (mk_click [0] [0] [0]);
         mk_block "s" "" "" 0 0 0 "" (mk_click [0] [0] [0]);
         mk_block "b" "" "uptime" 0 10 0 "" (mk_click [0] [0] [0])])
      0)); [reflexivity | reflexivity | repeat constructor].
Defined.

(** ** More on sched_start *)

Lemma sched_cycle_caughtsig (jp : list Z -> string -> Z * Z) (cb cx cy : nat)
    (e : cycle_env) (st : sched_state) :
  caughtsig (fst (sched_cycle jp cb cx cy e st)) =
    match env_wake e with
    | Timeout =>
        caughtsig (fst (update_status_line (env_clock e) (env_sigs e)
                          (env_block_update e) st))
    | Interrupted sig _ => sig
    end.
Proof.
  unfold sched_cycle.
  destruct (update_status_line (env_clock e) (env_sigs e) (env_block_update e) st)
    as [st1 calls].
  simpl. destruct (env_wake e) as [|sig input]; auto.
  destruct (Z.eqb sig SIGIO); reflexivity.
Qed.




(** X13: after an iteration whose sleep ran out, when no handler runs
    from the reset of its pass until block [j] of the next pass is
    checked, the next iteration does not dispatch block [j] if its runtime
    copy has no interval and has already run: such a block is refreshed
    only by a signal or a click. *)
Theorem sched_cycle_timeout_no_wake (jp : list Z -> string -> Z * Z) (cb cx cy : nat)
    (e e' : cycle_env) (st : sched_state) (j : nat) (u : block) :
  env_wake e = Timeout -> 0 <= caughtsig st ->
  (forall i s, env_sigs e i = Some s -> 0 < s) ->
  (forall k, (k <= j)%nat -> env_sigs e' k = None) ->
  updated_blocks (status (fst (sched_cycle jp cb cx cy e st))) !! j = Some u ->
  interval u = 0 -> last_update u <> 0 ->
  forall a, ~ In (Dispatch j a)
     (snd (sched_cycle jp cb cx cy e' (fst (sched_cycle jp cb cx cy e st)))).
Proof.
  intros Hw Hnn Hpos Hquiet Hu Hi Hl a Hin.
  pose proof (sched_cycle_caughtsig jp cb cx cy e st) as Hcs. rewrite Hw in Hcs.
  rewrite update_status_line_caughtsig in Hcs. simpl in Hcs.
  assert (Hcs0 : caughtsig (fst (sched_cycle jp cb cx cy e st)) = 0).
  { rewrite Hcs.
    pose proof (seen_pos (env_sigs e) Hpos (length (blocks (status st))) 0
                  (caughtsig st) Hnn) as Hs.
    destruct (Z.gtb_spec (seen (caughtsig st) (env_sigs e) 0
                             (length (blocks (status st)))) 0); lia. }
  apply sched_cycle_events in Hin as [(j' & a' & [= <- <-] & Hin) | Hr]; [| discriminate].
  apply update_status_line_calls in Hin as (cfg & u' & b' & _ & Hu' & Hub).
  rewrite Hu in Hu'. injection Hu' as <-.
  apply update_block_some in Hub as (_ & Hn & _).
  rewrite seen_none in Hn by (intros k Hk; apply Hquiet; lia).
  rewrite Hcs0 in Hn. unfold need_update in Hn.
  rewrite Hi, (proj2 (Z.eqb_neq _ _) Hl) in Hn. discriminate Hn.
Qed.

Lemma sched_cycle_timeout_no_wake_witness :
  ~ In (Dispatch 0 (mk_block "v" "" "vol" 0 SIGUSR1 0 "" (mk_click [0] [0] [0])))
    (snd (sched_cycle (fun _ _ => (0, 0)) 1 1 1
      (mk_cycle_env (fun _ => 9) (fun _ => None) (fun b => b) Timeout)
      (fst (sched_cycle (fun _ _ => (0, 0)) 1 1 1
        (mk_cycle_env (fun _ => 5) (fun _ => None) (fun b => b) Timeout)
        (mk_sched_state
          (mk_status_line [mk_block "v" "" "vol" 0 SIGUSR1 0 "" (mk_click [0] [0] [0])]
                          [mk_block "v" "" "vol" 0 SIGUSR1 3 "" (mk_click [0] [0] [0])])
          0))))).
Proof.
  apply (sched_cycle_timeout_no_wake (fun _ _ => (0, 0)) 1 1 1
    (mk_cycle_env (fun _ => 5) (fun _ => None) (fun b => b) Timeout)
    (mk_cycle_env (fun _ => 9) (fun _ => None) (fun b => b) Timeout)
    (mk_sched_state
      (mk_status_line [mk_block "v" "" "vol" 0 SIGUSR1 0 "" (mk_click [0] [0] [0])]
                      [mk_block "v" "" "vol" 0 SIGUSR1 3 "" (mk_click [0] [0] [0])])
      0) 0 (mk_block "v" "" "vol" 0 SIGUSR1 3 "" (mk_click [0] [0] [0]))).
  - reflexivity.
  - simpl. lia.
  - intros i s H. discriminate H.
  - intros k _. reflexivity.
  - vm_compute. reflexivity.
  - reflexivity.
  - simpl. lia.
Defined.

(** ** More on parse_click and handle_click *)

Lemma write_byte_zeros (buf : list Z) (i : Z) :
  Forall (fun z => z = 0) buf -> Forall (fun z => z = 0) (write_byte buf i 0).
Proof.
  intros H. unfold write_byte. destruct (Z.leb 0 i); auto.
  apply Forall_insert; auto.
Qed.

Lemma c_string_at_zeros (buf : list Z) (i : Z) :
  Forall (fun z => z = 0) buf -> c_string_at buf i = "".
Proof.
  intros H. unfold c_string_at.
  pose proof (Forall_drop _ (Z.to_nat i) _ H) as Hd.
  destruct (drop (Z.to_nat i) buf) as [|b l]; [reflexivity |].
  inversion Hd as [|? ? Hb _]; subst. reflexivity.
Qed.

(** X14: a click notification read from an empty stdin, or one holding only
    NUL bytes, changes no block, whatever fields [json_parse] reports. *)
Theorem handle_click_no_input (jp : list Z -> string -> Z * Z) (cb cx cy : nat)
    (input : list Z) (s : status_line) :
  Forall (fun z => z = 0) input ->
  handle_click jp cb cx cy input s = s.
Proof.
  intros H.
  assert (Hj : Forall (fun z => z = 0) (read_json input)).
  { unfold read_json. apply Forall_app; split.
    - apply Forall_take. exact H.
    - apply Forall_replicate. reflexivity. }
  unfold handle_click, parse_click.
  destruct (jp (read_json input) "y") as [yst ylen].
  destruct (jp (read_json input) "x") as [xst xlen].
  destruct (jp (read_json input) "button") as [bst blen].
  destruct (jp (read_json input) "instance") as [ist ilen].
  destruct (jp (read_json input) "name") as [nst nlen].
  rewrite !c_string_at_zeros by (repeat apply write_byte_zeros; exact Hj).
  reflexivity.
Qed.

Lemma handle_click_no_input_witness :
  handle_click sample_json_parse 2 5 5 []
    (mk_status_line [mk_block "vol" "" "x" 0 0 0 "" (mk_click [0; 0] [0] [0])]
                    [mk_block "vol" "" "x" 0 0 0 "" (mk_click [0; 0] [0] [0])]) =
    mk_status_line [mk_block "vol" "" "x" 0 0 0 "" (mk_click [0; 0] [0] [0])]
                   [mk_block "vol" "" "x" 0 0 0 "" (mk_click [0; 0] [0] [0])].
Proof. apply handle_click_no_input. constructor. Defined.

Lemma take_until_nul_prefix (n : nat) :
  forall l, l !! n = Some 0 ->
  forallb (fun z => negb (Z.eqb z 0)) (take n l) = true ->
  take_until_nul l = take n l.
Proof.
  induction n as [|n IH]; intros [|b l] Hn Hf; simpl in *; try discriminate.
  - injection Hn as ->. reflexivity.
  - apply andb_prop in Hf as [Hb Hf].
    destruct (Z.eqb_spec b 0); [discriminate |]. f_equal. auto.
Qed.

Lemma c_string_at_span (buf orig : list Z) (st len : Z) :
  0 <= st -> 0 <= len ->
  buf !! Z.to_nat (st + len) = Some 0 ->
  (forall i, (i < Z.to_nat len)%nat ->
     buf !! (Z.to_nat st + i)%nat = orig !! (Z.to_nat st + i)%nat) ->
  span_nonzero orig st len = true ->
  c_string_at buf st = string_of_bytes (take (Z.to_nat len) (drop (Z.to_nat st) orig)).
Proof.
  intros Hst Hlen Hnul Hsame Hnz. unfold span_nonzero in Hnz.
  assert (Ht : take (Z.to_nat len) (drop (Z.to_nat st) buf) =
               take (Z.to_nat len) (drop (Z.to_nat st) orig)).
  { apply list_eq. intros i. destruct (decide (i < Z.to_nat len)%nat).
    - rewrite !lookup_take_lt, !lookup_drop by lia. auto.
    - rewrite !lookup_take_ge by lia. reflexivity. }
  unfold c_string_at. f_equal. rewrite <- Ht.
  apply take_until_nul_prefix.
  - rewrite lookup_drop. replace (Z.to_nat st + Z.to_nat len)%nat
      with (Z.to_nat (st + len)) by lia. exact Hnul.
  - rewrite Ht. exact Hnz.
Qed.

(** X15: when [json_parse] reports the name and instance spans inside the
    buffer, with no NUL inside them and neither terminator inside the other
    span, [parse_click] returns exactly the bytes of the two spans as
    [name] and [instance]. *)
Theorem parse_click_name_instance (jp : list Z -> string -> Z * Z)
    (json : list Z) (c : click) (nst nlen ist ilen : Z) :
  jp json "name" = (nst, nlen) -> jp json "instance" = (ist, ilen) ->
  0 <= nst -> 0 <= nlen -> nst + nlen < Z.of_nat (length json) ->
  0 <= ist -> 0 <= ilen -> ist + ilen < Z.of_nat (length json) ->
  span_nonzero json nst nlen = true -> span_nonzero json ist ilen = true ->
  ~ (nst <= ist + ilen < nst + nlen) -> ~ (ist <= nst + nlen < ist + ilen) ->
  snd (fst (fst (parse_click jp json c))) =
    string_of_bytes (take (Z.to_nat nlen) (drop (Z.to_nat nst) json)) /\
  snd (fst (parse_click jp json c)) =
    string_of_bytes (take (Z.to_nat ilen) (drop (Z.to_nat ist) json)).
Proof.
  intros Hn Hi Hnst Hnlen Hnb Hist Hilen Hib Hnz Hiz Hsep1 Hsep2.
  unfold parse_click.
  destruct (jp json "y") as [yst ylen].
  destruct (jp json "x") as [xst xlen].
  destruct (jp json "button") as [bst blen].
  rewrite Hi, Hn. simpl.
  unfold write_byte.
  rewrite (proj2 (Z.leb_le 0 (nst + nlen))), (proj2 (Z.leb_le 0 (ist + ilen))) by lia.
  set (json2 := <[Z.to_nat (ist + ilen) := 0]> (<[Z.to_nat (nst + nlen) := 0]> json)).
  assert (Hlook : forall p, p <> Z.to_nat (nst + nlen) -> p <> Z.to_nat (ist + ilen) ->
                  json2 !! p = json !! p).
  { intros p H1 H2. unfold json2.
    rewrite !list_lookup_insert_ne by congruence. reflexivity. }
  assert (Hlen1 : (Z.to_nat (nst + nlen) < length json)%nat) by lia.
  assert (Hlen2 : (Z.to_nat (ist + ilen) < length json)%nat) by lia.
  split.
  - apply c_string_at_span; auto.
    + unfold json2. destruct (decide (Z.to_nat (ist + ilen) = Z.to_nat (nst + nlen)))
        as [E|E].
      * rewrite E. apply list_lookup_insert_eq. rewrite length_insert. lia.
      * rewrite list_lookup_insert_ne by congruence.
        apply list_lookup_insert_eq. lia.
    + intros i Hlt. apply Hlook; lia.
  - apply c_string_at_span; auto.
    + unfold json2. apply list_lookup_insert_eq. rewrite length_insert. lia.
    + intros i Hlt. apply Hlook; lia.
Qed.

Lemma parse_click_name_instance_witness :
  snd (fst (fst (parse_click sample_json_parse sample_click
                  (empty_click 2 5 5)))) =
    string_of_bytes (take 3 (drop 10 sample_click)).
Proof.
  apply (parse_click_name_instance sample_json_parse sample_click
    (empty_click 2 5 5) 10 3 27 0);
    first [reflexivity | lia | vm_compute; reflexivity | simpl length; lia].
Defined.
